(** * ip2d: IPv4 / IPv6 text <-> integer conversion (src/index.ts)

    A shallow embedding of the four exported functions of [src/index.ts]
    ([fromIPv4], [toIPv4], [fromIPv6], [toIPv6]) together with the pieces of
    the JavaScript runtime they call, followed by the properties the
    specification states about them.

    JavaScript strings are sequences of UTF-16 code units; every character
    the four functions inspect is ASCII, so a string is embedded as a
    [list ascii] inside the development and as a [string] at the exported
    functions. *)

From Stdlib Require Import ZArith List Ascii String Bool Lia.
Import ListNotations.
Local Open Scope Z_scope.

(** ** The JavaScript runtime used by the source *)

Module JS.

(** A value of type [number], restricted to what the source can produce from
    integer inputs: an integer-valued double or [NaN].  Integers are exact
    below 2^53; every integer the conversions build stays far below. *)
Inductive number : Type :=
| NaN
| Int (z : Z).

(** What a [throw] carries: a plain [Error] with its message, or one of the
    two built-in errors the calls of the source can raise. *)
Inductive exn : Type :=
| Error (message : string)
| RangeError
| TypeError.

(** A computation that returns or throws. *)
Inductive result (A : Type) : Type :=
| Ok (a : A)
| Throw (e : exn).

Arguments Ok {A} a.
Arguments Throw {A} e.

Definition bind {A B : Type} (r : result A) (k : A -> result B) : result B :=
  match r with
  | Ok a => k a
  | Throw e => Throw e
  end.

Notation "x <- r ;; k" := (bind r (fun x => k))
  (at level 61, r at next level, right associativity).

Definition chars (s : string) : list ascii := list_ascii_of_string s.
Definition text (l : list ascii) : string := string_of_list_ascii l.

(** *** Strings: [String.prototype.split], [Array.prototype.join] *)

(** [s.split(sep)] for a one-character separator.  The empty string splits
    into one empty piece, so the result is never the empty array. *)
Fixpoint split (sep : ascii) (s : list ascii) : list (list ascii) :=
  match s with
  | [] => [[]]
  | c :: r =>
      if Ascii.eqb c sep then [] :: split sep r
      else match split sep r with
           | h :: t => (c :: h) :: t
           | [] => [[c]]
           end
  end.

(** [pieces.join(sep)] on pieces already converted to strings. *)
Fixpoint join (sep : ascii) (pieces : list (list ascii)) : list ascii :=
  match pieces with
  | [] => []
  | [p] => p
  | p :: ps => p ++ sep :: join sep ps
  end.

(** *** Digits *)

(** The value of a digit character in the largest radix (36). *)
Definition digit_value (c : ascii) : option Z :=
  let n := Z.of_nat (nat_of_ascii c) in
  if (48 <=? n) && (n <=? 57) then Some (n - 48)
  else if (97 <=? n) && (n <=? 122) then Some (n - 87)
  else if (65 <=? n) && (n <=? 90) then Some (n - 55)
  else None.

Definition is_digit (radix : Z) (c : ascii) : bool :=
  match digit_value c with
  | Some d => d <? radix
  | None => false
  end.

Definition digit_or_zero (c : ascii) : Z :=
  match digit_value c with
  | Some d => d
  | None => 0
  end.

Fixpoint digits_prefix (radix : Z) (s : list ascii) : list ascii :=
  match s with
  | c :: r => if is_digit radix c then c :: digits_prefix radix r else []
  | [] => []
  end.

Definition digits_value (radix : Z) (ds : list ascii) : Z :=
  fold_left (fun acc c => acc * radix + digit_or_zero c) ds 0.

(** The ASCII members of StrWhiteSpaceChar: TAB, LF, VT, FF, CR, SP. *)
Definition is_ws (c : ascii) : bool :=
  let n := Z.of_nat (nat_of_ascii c) in
  ((9 <=? n) && (n <=? 13)) || (n =? 32).

Fixpoint skip_ws (s : list ascii) : list ascii :=
  match s with
  | c :: r => if is_ws c then skip_ws r else s
  | [] => []
  end.

Definition trim (s : list ascii) : list ascii :=
  rev (skip_ws (rev (skip_ws s))).

(** *** [Number(s)] and [parseInt(s, radix)] *)

(** [Number(s)] on the strings the source applies it to: white space is
    trimmed, the empty string is 0, a string of decimal digits is its value.
    The other numeric literals of the language (signs, fractions, exponents,
    [0x]/[0o]/[0b] prefixes, [Infinity]) contain a character that is not a
    decimal digit and are sent to [NaN] here. *)
Definition Number (s : list ascii) : number :=
  match trim s with
  | [] => Int 0
  | t => if forallb (is_digit 10) t then Int (digits_value 10 t) else NaN
  end.

(** The optional sign in front of the digits of [parseInt]. *)
Definition strip_sign (s : list ascii) : bool * list ascii :=
  match s with
  | c :: r =>
      if Ascii.eqb c "-" then (true, r)
      else if Ascii.eqb c "+" then (false, r)
      else (false, s)
  | [] => (false, s)
  end.

(** The optional [0x] or [0X] that radix 16 allows. *)
Definition strip_0x (s : list ascii) : list ascii :=
  match s with
  | c :: d :: r =>
      if Ascii.eqb c "0" && (Ascii.eqb d "x" || Ascii.eqb d "X") then r
      else s
  | _ => s
  end.

(** [parseInt(s, radix)] for an explicit radix in 2..36: leading white
    space, an optional sign, for radix 16 an optional [0x] prefix, then the
    longest prefix of digits of the radix; [NaN] when that prefix is
    empty. *)
Definition parseInt (s : list ascii) (radix : Z) : number :=
  let '(neg, s2) := strip_sign (skip_ws s) in
  if (radix <? 2) || (36 <? radix) then NaN
  else
    let s3 := if radix =? 16 then strip_0x s2 else s2 in
    match digits_prefix radix s3 with
    | [] => NaN
    | ds =>
        Int (if neg : bool then - digits_value radix ds
             else digits_value radix ds)
    end.

(** [BigInt(n)] of a number: [NaN] is a RangeError. *)
Definition BigInt (n : number) : result Z :=
  match n with
  | NaN => Throw RangeError
  | Int z => Ok z
  end.

(** *** Printing integers: [toString(radix)] *)

Definition digit_char (d : Z) : ascii :=
  if d <? 10 then ascii_of_nat (48 + Z.to_nat d)
  else ascii_of_nat (87 + Z.to_nat d).

(** The digits of [n >= 0], most significant first, in front of [acc];
    [fuel + 1] digits at most are produced. *)
Fixpoint digits (fuel : nat) (radix n : Z) (acc : list ascii) : list ascii :=
  let acc' := digit_char (n mod radix) :: acc in
  match fuel with
  | O => acc'
  | S f => if n / radix =? 0 then acc' else digits f radix (n / radix) acc'
  end.

(** [n.toString(radix)] for an integer [n] (a BigInt or an integer-valued
    number); the fuel [log2 |n|] is enough for every radix from 2 up. *)
Definition toString (radix n : Z) : list ascii :=
  if n <? 0 then "-"%char :: digits (Z.to_nat (Z.log2 (- n))) radix (- n) []
  else digits (Z.to_nat (Z.log2 n)) radix n [].

(** [String(n)], the conversion [join] applies to a number. *)
Definition ToString (n : number) : list ascii :=
  match n with
  | NaN => chars "NaN"
  | Int z => toString 10 z
  end.

(** *** 32-bit integer operators on numbers *)

(** ToInt32 on an integer: reduction modulo 2^32 into [-2^31, 2^31). *)
Definition wrap32 (z : Z) : Z := (z + 2 ^ 31) mod 2 ^ 32 - 2 ^ 31.

Definition ToInt32 (n : number) : Z :=
  match n with
  | NaN => 0
  | Int z => wrap32 z
  end.

(** [a << b] *)
Definition shl (a b : number) : number :=
  Int (wrap32 (Z.shiftl (ToInt32 a) (ToInt32 b mod 32))).

(** [a >> b], the sign-propagating shift *)
Definition sar (a b : number) : number :=
  Int (Z.shiftr (ToInt32 a) (ToInt32 b mod 32)).

(** [a | b] *)
Definition bor (a b : number) : number :=
  Int (Z.lor (ToInt32 a) (ToInt32 b)).

(** [a & b] *)
Definition band (a b : number) : number :=
  Int (Z.land (ToInt32 a) (ToInt32 b)).

(** *** Arrays *)

(** [xs.reduce(f)] without an initial value: the first element starts the
    accumulator, and the empty array is a TypeError. *)
Definition reduce {A : Type} (f : A -> A -> A) (xs : list A) : result A :=
  match xs with
  | [] => Throw TypeError
  | x :: r => Ok (fold_left f r x)
  end.

(** [xs.reduce(f, init)] for a callback that may throw. *)
Fixpoint reduce_from {A B : Type} (f : B -> A -> result B) (xs : list A)
    (acc : B) : result B :=
  match xs with
  | [] => Ok acc
  | x :: r => acc' <- f acc x ;; reduce_from f r acc'
  end.

(** [xs.indexOf(x)]: the first position of [x], or -1. *)
Fixpoint indexOf (x : list ascii) (xs : list (list ascii)) : Z :=
  match xs with
  | [] => -1
  | y :: r =>
      if list_eq_dec ascii_dec y x then 0
      else let i := indexOf x r in if i <? 0 then -1 else i + 1
  end.

(** [new Array(n).fill(x)]: a negative length is a RangeError. *)
Definition new_Array_fill {A : Type} (n : Z) (x : A) : result (list A) :=
  if (n <? 0) || (2 ^ 32 <=? n) then Throw RangeError
  else Ok (repeat x (Z.to_nat n)).

(** [xs.splice(start, deleteCount, ...items)] for [0 <= start <= length],
    as the resulting content of [xs]. *)
Definition splice {A : Type} (start deleteCount : Z) (items xs : list A)
    : list A :=
  firstn (Z.to_nat start) xs ++ items
    ++ skipn (Z.to_nat start + Z.to_nat deleteCount) xs.

(** *** The two regular expressions of [toIPv6] *)

(** The tail [(:0)*(:|$)] of the first expression, run on what follows the
    leading [0]: greedy on [:0], backtracking to fewer repetitions when the
    closing [(:|$)] fails; the result is the text after the match. *)
Fixpoint zero_run_tail (s : list ascii) : option (list ascii) :=
  match s with
  | [] => Some []
  | c :: r =>
      if Ascii.eqb c ":" then
        match r with
        | d :: r' =>
            if Ascii.eqb d "0" then
              match zero_run_tail r' with
              | Some rest => Some rest
              | None => Some r
              end
            else Some r
        | [] => Some r
        end
      else None
  end.

(** A match that starts at a colon: [:0(:0)*(:|$)]. *)
Definition zero_run_at_colon (s : list ascii) : option (list ascii) :=
  match s with
  | c :: d :: r =>
      if Ascii.eqb c ":" && Ascii.eqb d "0" then zero_run_tail r else None
  | _ => None
  end.

(** A match anchored by [^]: [0(:0)*(:|$)] at the start of the string. *)
Definition zero_run_at_start (s : list ascii) : option (list ascii) :=
  match s with
  | c :: r => if Ascii.eqb c "0" then zero_run_tail r else None
  | [] => None
  end.

(** The leftmost match among the positions of [s], each of which can only
    begin with the colon alternative. *)
Fixpoint replace_zero_run_scan (s : list ascii) : list ascii :=
  match s with
  | [] => []
  | c :: r =>
      match zero_run_at_colon s with
      | Some rest => ":"%char :: ":"%char :: rest
      | None => c :: replace_zero_run_scan r
      end
  end.

(** [s.replace(/(^|:)0(:0)*(:|$)/, "::")]: the first match only (no [g]
    flag); at position 0 the alternative [^] is tried before [:]. *)
Definition replace_zero_run (s : list ascii) : list ascii :=
  match zero_run_at_start s with
  | Some rest => ":"%char :: ":"%char :: rest
  | None => replace_zero_run_scan s
  end.

Fixpoint skip_colons (s : list ascii) : list ascii :=
  match s with
  | c :: r => if Ascii.eqb c ":" then skip_colons r else s
  | [] => []
  end.

(** Whether [s] starts with three colons. *)
Definition three_colons (s : list ascii) : bool :=
  match s with
  | a :: b :: c :: _ => Ascii.eqb a ":" && Ascii.eqb b ":" && Ascii.eqb c ":"
  | _ => false
  end.

(** [s.replace(/:{3,}/, "::")]: the first run of three colons or more,
    taken whole. *)
Fixpoint replace_colons (s : list ascii) : list ascii :=
  match s with
  | [] => []
  | c :: r =>
      if three_colons s then ":"%char :: ":"%char :: skip_colons s
      else c :: replace_colons r
  end.

End JS.

Import JS.

(** ** The four functions of src/index.ts *)

Section Ip2d.

(** [isIPv4] and [isIPv6] are imported from Node's [net] module. *)
Variable isIPv4 : string -> bool.
Variable isIPv6 : string -> bool.

Definition fromIPv4 (str : string) : result number :=
  if negb (isIPv4 str) then
    Throw (Error "str should be a valid IPv4 address.")
  else
    reduce (fun a b => bor (shl a (Int 0x08)) b)
           (map Number (split "." (chars str))).

Definition toIPv4 (num : number) : string :=
  text (join "."
          (map ToString
               (map (fun a => band (sar num a) (Int 0xFF))
                    [Int 0x18; Int 0x10; Int 0x08; Int 0x00]))).

(** The abbreviation step of [fromIPv6]: the sections after the [splice]. *)
Definition expandSections (sections : list (list ascii))
    : result (list (list ascii)) :=
  let emptySectionIndex := indexOf [] sections in
  if negb (emptySectionIndex =? -1) then
    let numZeros := 8 - Z.of_nat (List.length sections) + 1 in
    zeros <- new_Array_fill numZeros (chars "0") ;;
    Ok (splice emptySectionIndex 1 zeros sections)
  else Ok sections.

(** [section || "0"] *)
Definition orZero (section : list ascii) : list ascii :=
  match section with
  | [] => chars "0"
  | _ => section
  end.

Definition addSection (acc : Z) (section : list ascii) : result Z :=
  b <- BigInt (parseInt (orZero section) 16) ;;
  Ok (Z.shiftl acc 16 + b).

Definition fromIPv6 (str : string) : result Z :=
  if negb (isIPv6 str) then
    Throw (Error "str should be a valid IPv6 address.")
  else
    sections <- expandSections (split ":" (chars str)) ;;
    reduce_from addSection sections 0.

(** The loop of [toIPv6]: [unshift] puts the section of [i] in front. *)
Definition sectionsOf (num : Z) : list (list ascii) :=
  fold_left
    (fun sections i =>
       toString 16 (Z.land (Z.shiftr num (i * 16)) 0xFFFF) :: sections)
    [0; 1; 2; 3; 4; 5; 6; 7] [].

Definition toIPv6 (num : Z) : string :=
  text (replace_colons (replace_zero_run (join ":" (sectionsOf num)))).

End Ip2d.

(** ** The validity predicates and the quantities the properties speak of *)

(** A decimal octet in canonical form: one to three decimal digits, no
    leading zero, value at most 255. *)
Definition canonical_octet (p : list ascii) : bool :=
  match p with
  | [] => false
  | c :: r =>
      forallb (is_digit 10) p
      && Nat.leb (List.length p) 3
      && (negb (Ascii.eqb c "0") || match r with [] => true | _ => false end)
      && (digits_value 10 p <=? 255)
  end.

(** Four canonical octets separated by dots, and nothing else. *)
Definition canonical_quad (s : list ascii) : bool :=
  match split "." s with
  | [a; b; c; d] =>
      canonical_octet a && canonical_octet b
      && canonical_octet c && canonical_octet d
  | _ => false
  end.

(** Modelled from the spec: the predicate [isValidIPv4] that the environment
    provides (Node's [net.isIPv4], which is not part of the repository):
    four dot-separated decimal octets, each 0-255, without leading zeros
    and without extraneous characters. *)
Definition isValidIPv4 (s : string) : bool := canonical_quad (chars s).

(** One to four hexadecimal digits, of either case. *)
Definition hextet (p : list ascii) : bool :=
  match p with
  | [] => false
  | _ => Nat.leb (List.length p) 4 && forallb (is_digit 16) p
  end.

(** The text before and after the first [::] of [s], if there is one. *)
Fixpoint split_abbrev (s : list ascii) : option (list ascii * list ascii) :=
  match s with
  | [] => None
  | c :: r =>
      match r with
      | d :: r2 =>
          if Ascii.eqb c ":" && Ascii.eqb d ":" then Some ([], r2)
          else match split_abbrev r with
               | Some (l, r') => Some (c :: l, r')
               | None => None
               end
      | [] => None
      end
  end.

(** The hextets of one side of a [::]; an empty side has none. *)
Definition side (s : list ascii) : list (list ascii) :=
  match s with
  | [] => []
  | _ => split ":" s
  end.

(** The IPv6 text grammar of the specification: eight colon-separated
    hextets, or fewer with one [::] standing for one or more zero hextets. *)
Definition ipv6_syntax (s : list ascii) : bool :=
  match split_abbrev s with
  | None =>
      let hs := split ":" s in
      Nat.eqb (List.length hs) 8 && forallb hextet hs
  | Some (l, r) =>
      forallb hextet (side l) && forallb hextet (side r)
      && Nat.leb (List.length (side l) + List.length (side r)) 7
  end.

(** Modelled from the spec: the predicate [isValidIPv6] that the environment
    provides (Node's [net.isIPv6], which is not part of the repository), as
    the specification describes the accepted texts: eight colon-separated
    hextets of one to four hexadecimal digits, or fewer with one [::]. *)
Definition isValidIPv6 (s : string) : bool := ipv6_syntax (chars s).

(** The dotted text of four octets. *)
Definition dotted (a b c d : Z) : string :=
  text (join "." (map (toString 10) [a; b; c; d])).

(** Big-endian packing of four octets, as a 32-bit signed integer. *)
Definition pack32 (a b c d : Z) : Z :=
  wrap32 (a * 2 ^ 24 + b * 2 ^ 16 + c * 2 ^ 8 + d).

(** The byte of [v] at bit offset [s], read as [toIPv4] reads it. *)
Definition byteAt (s v : Z) : Z := Z.land (Z.shiftr (wrap32 v) s) 255.

(** The eight 16-bit segments of [v], most significant first. *)
Definition segments (v : Z) : list Z :=
  map (fun i => Z.land (Z.shiftr v (i * 16)) 0xFFFF) [7; 6; 5; 4; 3; 2; 1; 0].

(** The value of a list of 16-bit segments, most significant first. *)
Definition segments_value (xs : list Z) : Z :=
  fold_left (fun acc x => Z.shiftl acc 16 + x) xs 0.

(** The value [fromIPv6] gives to one section. *)
Definition section_value (p : list ascii) : Z := digits_value 16 p.

(** The colon-separated text of a list of hextets. *)
Definition colons (ps : list (list ascii)) : list ascii := join ":" ps.

(** The text of hextets that each follow a colon. *)
Definition after (ps : list (list ascii)) : list ascii :=
  flat_map (fun p => ":"%char :: p) ps.

(** A piece of colon-separated text: not empty and without a colon. *)
Definition piece (p : list ascii) : Prop := p <> [] /\ ~ In ":"%char p.

(** A piece that does not begin with the digit 0. *)
Definition nonzero_piece (p : list ascii) : Prop :=
  piece p /\ hd "0"%char p <> "0"%char.

(** A list of pieces that is empty or begins with a nonzero piece. *)
Definition starts_nonzero (ps : list (list ascii)) : Prop :=
  match ps with
  | [] => True
  | p :: _ => nonzero_piece p
  end.

(** What [split] returns for the text of [ps]: the empty text gives one
    empty piece. *)
Definition or_blank (ps : list (list ascii)) : list (list ascii) :=
  match ps with
  | [] => [[]]
  | _ => ps
  end.

(** The text of an abbreviated address: hextets, [::], hextets. *)
Definition abbreviated (pre post : list (list ascii)) : string :=
  text (colons pre ++ ":"%char :: ":"%char :: colons post).

(** The error an invalid input raises names the input when the text of the
    input occurs in its message. *)
Fixpoint prefix (p s : list ascii) : bool :=
  match p, s with
  | [], _ => true
  | c :: p', d :: s' => Ascii.eqb c d && prefix p' s'
  | _ :: _, [] => false
  end.

Fixpoint occurs (p s : list ascii) : bool :=
  prefix p s || match s with
                | [] => false
                | _ :: s' => occurs p s'
                end.

Definition mentions (e : exn) (word : string) : bool :=
  match e with
  | Error message => occurs (chars word) (chars message)
  | _ => false
  end.

(** A bounded universal check, for the finitely many octets and hextets. *)
Fixpoint all_from (n : nat) (x : Z) (P : Z -> bool) : bool :=
  match n with
  | O => true
  | S m => P x && all_from m (x + 1) P
  end.

Definition octet_ok (x : Z) : bool :=
  let p := toString 10 x in
  canonical_octet p
  && match Number p with
     | Int y => y =? x
     | NaN => false
     end.

Definition hex_ok (x : Z) : bool :=
  let p := toString 16 x in
  hextet p
  && (section_value p =? x)
  && match p with
     | "0"%char :: r => (x =? 0) && match r with [] => true | _ => false end
     | _ => negb (x =? 0)
     end.

(** * Lemmas on the runtime and on the four functions *)

(** ** Splitting and joining *)

Lemma split_nonempty sep s : split sep s <> [].
Proof.
  destruct s as [|c r]; simpl; [discriminate|].
  destruct (Ascii.eqb c sep); [discriminate|].
  destruct (split sep r); discriminate.
Qed.

Lemma split_piece sep p :
  ~ In sep p -> split sep p = [p].
Proof.
  induction p as [|c p IH]; intros Hp; simpl; [reflexivity|].
  destruct (Ascii.eqb_spec c sep) as [->|_].
  - exfalso; apply Hp; left; reflexivity.
  - rewrite IH; [reflexivity|]. intros H; apply Hp; right; exact H.
Qed.

Lemma split_app sep p r :
  ~ In sep p -> split sep (p ++ sep :: r) = p :: split sep r.
Proof.
  induction p as [|c p IH]; intros Hp; simpl.
  - rewrite Ascii.eqb_refl; reflexivity.
  - destruct (Ascii.eqb_spec c sep) as [->|_].
    + exfalso; apply Hp; left; reflexivity.
    + rewrite IH; [reflexivity|]. intros H; apply Hp; right; exact H.
Qed.

Lemma split_join sep ps :
  ps <> [] -> Forall (fun p => ~ In sep p) ps -> split sep (join sep ps) = ps.
Proof.
  induction ps as [|p ps IH]; intros Hne Hall; [congruence|].
  inversion Hall as [|? ? Hp Hps]; subst.
  destruct ps as [|q ps].
  - simpl. apply split_piece; exact Hp.
  - change (join sep (p :: q :: ps)) with (p ++ sep :: join sep (q :: ps)).
    rewrite split_app by exact Hp.
    rewrite IH; [reflexivity|discriminate|exact Hps].
Qed.

Lemma join_split sep s : join sep (split sep s) = s.
Proof.
  induction s as [|c r IH]; simpl; [reflexivity|].
  destruct (Ascii.eqb_spec c sep) as [->|Hc].
  - pose proof (split_nonempty sep r) as Hne.
    destruct (split sep r) as [|h t] eqn:E; [congruence|].
    simpl in *. rewrite IH. reflexivity.
  - pose proof (split_nonempty sep r) as Hne.
    destruct (split sep r) as [|h t] eqn:E; [congruence|].
    destruct t as [|h' t']; simpl in *; rewrite <- IH; reflexivity.
Qed.

Lemma chars_text l : chars (text l) = l.
Proof. apply list_ascii_of_string_of_list_ascii. Qed.

Lemma text_chars s : text (chars s) = s.
Proof. apply string_of_list_ascii_of_string. Qed.

(** ** Bounded checks *)

Lemma all_from_spec n P : forall x,
  all_from n x P = true -> forall y, x <= y < x + Z.of_nat n -> P y = true.
Proof.
  induction n as [|n IH]; intros x H y Hy; [lia|].
  simpl in H. apply andb_true_iff in H as [Hx Hrest].
  destruct (Z.eq_dec y x) as [->|Hne]; [exact Hx|].
  apply (IH (x + 1) Hrest). lia.
Qed.

Lemma octets_ok : all_from 256 0 octet_ok = true.
Proof. vm_compute. reflexivity. Qed.

Lemma hextets_ok : all_from (Z.to_nat 65536) 0 hex_ok = true.
Proof. vm_cast_no_check (eq_refl true). Qed.

(** ** Octets *)

Lemma is_digit_not_dot c : is_digit 10 c = true -> c <> "."%char.
Proof. intros H ->. discriminate H. Qed.

Lemma digits_no_dot p : forallb (is_digit 10) p = true -> ~ In "."%char p.
Proof.
  intros H Hin. rewrite forallb_forall in H.
  apply (is_digit_not_dot _ (H _ Hin)). reflexivity.
Qed.

Lemma canonical_octet_digits p :
  canonical_octet p = true -> forallb (is_digit 10) p = true.
Proof.
  destruct p as [|c r]; [discriminate|].
  unfold canonical_octet. intros H.
  do 3 (apply andb_true_iff in H as [H _]). exact H.
Qed.

Lemma octet_facts x :
  0 <= x <= 255 ->
  canonical_octet (toString 10 x) = true /\ Number (toString 10 x) = Int x.
Proof.
  intros Hx.
  pose proof (all_from_spec 256 octet_ok 0 octets_ok x ltac:(lia)) as H.
  unfold octet_ok in H. apply andb_true_iff in H as [H1 H2].
  split; [exact H1|].
  destruct (Number (toString 10 x)) as [|y]; [discriminate|].
  apply Z.eqb_eq in H2. congruence.
Qed.

Lemma is_digit10_In c : is_digit 10 c = true -> In c (chars "0123456789").
Proof.
  destruct c as [[] [] [] [] [] [] [] []]; intros H;
    try discriminate H; simpl; auto 12.
Qed.

Lemma canonical_octet_render p :
  canonical_octet p = true -> exists x, 0 <= x <= 255 /\ p = toString 10 x.
Proof.
  intros H. exists (digits_value 10 p).
  pose proof (canonical_octet_digits p H) as Hd.
  destruct p as [|c1 [|c2 [|c3 [|c4 r]]]]; try discriminate H.
  - simpl in Hd. rewrite andb_true_r in Hd. apply is_digit10_In in Hd.
    simpl in Hd.
    repeat (destruct Hd as [<-|Hd]; [vm_compute; intuition discriminate|]).
    contradiction.
  - simpl in Hd. rewrite andb_true_r in Hd.
    apply andb_true_iff in Hd as [Hd1 Hd2].
    apply is_digit10_In in Hd1, Hd2. simpl in Hd1, Hd2.
    repeat (destruct Hd1 as [<-|Hd1]; [|]); try contradiction;
    repeat (destruct Hd2 as [<-|Hd2]; [|]); try contradiction;
    (vm_compute in H; try discriminate H; vm_compute; intuition discriminate).
  - simpl in Hd. rewrite andb_true_r in Hd.
    apply andb_true_iff in Hd as [Hd1 Hd2].
    apply andb_true_iff in Hd2 as [Hd2 Hd3].
    apply is_digit10_In in Hd1, Hd2, Hd3. simpl in Hd1, Hd2, Hd3.
    repeat (destruct Hd1 as [<-|Hd1]; [|]); try contradiction;
    repeat (destruct Hd2 as [<-|Hd2]; [|]); try contradiction;
    repeat (destruct Hd3 as [<-|Hd3]; [|]); try contradiction;
    (vm_compute in H; try discriminate H; vm_compute; intuition discriminate).
  - exfalso. unfold canonical_octet in H.
    do 2 (apply andb_true_iff in H as [H _]).
    apply andb_true_iff in H as [_ H]. discriminate H.
Qed.

(** ** 32-bit arithmetic *)

Lemma wrap32_range z : - 2 ^ 31 <= wrap32 z < 2 ^ 31.
Proof.
  unfold wrap32.
  pose proof (Z.mod_pos_bound (z + 2 ^ 31) (2 ^ 32) ltac:(lia)). lia.
Qed.

Lemma wrap32_small z : - 2 ^ 31 <= z < 2 ^ 31 -> wrap32 z = z.
Proof. intros H. unfold wrap32. rewrite Z.mod_small; lia. Qed.

Lemma wrap32_idem z : wrap32 (wrap32 z) = wrap32 z.
Proof. apply wrap32_small, wrap32_range. Qed.

Lemma wrap32_mod z : wrap32 z mod 2 ^ 32 = z mod 2 ^ 32.
Proof.
  unfold wrap32.
  change (2 ^ 31) with 2147483648. change (2 ^ 32) with 4294967296.
  Z.div_mod_to_equations. lia.
Qed.

Lemma lor_low_byte w y :
  w mod 256 = 0 -> 0 <= y < 256 -> Z.lor w y = w + y.
Proof.
  intros Hw Hy.
  assert (Hland : Z.land w y = 0).
  { apply Z.bits_inj'. intros n Hn.
    rewrite Z.land_spec, Z.bits_0.
    destruct (Z.lt_ge_cases n 8) as [Hlt|Hge].
    - assert (Hb : Z.testbit w n = false).
      { rewrite (Z.div_mod w 256) by lia. rewrite Hw, Z.add_0_r.
        rewrite Z.mul_comm. change 256 with (2 ^ 8).
        apply Z.mul_pow2_bits_low. exact Hlt. }
      rewrite Hb. reflexivity.
    - destruct (Z.eq_dec y 0) as [->|Hy0].
      + rewrite Z.bits_0. apply andb_false_r.
      + rewrite (Z.bits_above_log2 y n); [apply andb_false_r|lia|].
        assert (Z.log2 y < 8) by (apply Z.log2_lt_pow2; lia). lia. }
  rewrite (Z.add_nocarry_lxor _ _ Hland). symmetry. apply Z.lxor_lor. exact Hland.
Qed.

Lemma shl8_bor x y :
  0 <= y <= 255 ->
  bor (shl (Int x) (Int 0x08)) (Int y) = Int (wrap32 (wrap32 x * 256) + y).
Proof.
  intros Hy. unfold bor, shl, ToInt32.
  change (wrap32 8 mod 32) with 8.
  rewrite Z.shiftl_mul_pow2 by lia. change (2 ^ 8) with 256.
  rewrite wrap32_idem. rewrite (wrap32_small y) by lia.
  rewrite lor_low_byte; [reflexivity| |lia].
  unfold wrap32.
  change (2 ^ 31) with 2147483648. change (2 ^ 32) with 4294967296.
  Z.div_mod_to_equations. lia.
Qed.

Lemma reduce_octets a b c d :
  0 <= a <= 255 -> 0 <= b <= 255 -> 0 <= c <= 255 -> 0 <= d <= 255 ->
  reduce (fun a b => bor (shl a (Int 0x08)) b) [Int a; Int b; Int c; Int d]
  = Ok (Int (pack32 a b c d)).
Proof.
  intros Ha Hb Hc Hd. unfold reduce. simpl fold_left.
  rewrite (shl8_bor a b Hb).
  rewrite (shl8_bor _ c Hc).
  rewrite (shl8_bor _ d Hd).
  do 2 f_equal. unfold pack32.
  rewrite (wrap32_small a) by lia.
  rewrite (wrap32_small (a * 256)) by lia.
  rewrite (wrap32_small (a * 256 + b)) by lia.
  rewrite (wrap32_small ((a * 256 + b) * 256)) by lia.
  rewrite (wrap32_small ((a * 256 + b) * 256 + c)) by lia.
  unfold wrap32.
  change (2 ^ 31) with 2147483648. change (2 ^ 32) with 4294967296.
  change (2 ^ 24) with 16777216. change (2 ^ 16) with 65536.
  change (2 ^ 8) with 256.
  Z.div_mod_to_equations. lia.
Qed.

Lemma byteAt_range s v : 0 <= byteAt s v <= 255.
Proof.
  unfold byteAt. change 255 with (Z.ones 8).
  rewrite Z.land_ones by lia.
  pose proof (Z.mod_pos_bound (Z.shiftr (wrap32 v) s) (2 ^ 8) ltac:(lia)).
  change (Z.ones 8) with 255. change (2 ^ 8) with 256 in *. lia.
Qed.

Lemma byteAt_wrap32 s v : byteAt s (wrap32 v) = byteAt s v.
Proof. unfold byteAt. rewrite wrap32_idem. reflexivity. Qed.

Lemma byteAt_pack32 a b c d :
  0 <= a <= 255 -> 0 <= b <= 255 -> 0 <= c <= 255 -> 0 <= d <= 255 ->
  byteAt 24 (pack32 a b c d) = a /\ byteAt 16 (pack32 a b c d) = b /\
  byteAt 8 (pack32 a b c d) = c /\ byteAt 0 (pack32 a b c d) = d.
Proof.
  intros Ha Hb Hc Hd. unfold pack32.
  rewrite !byteAt_wrap32. unfold byteAt.
  change 255 with (Z.ones 8). rewrite !Z.land_ones by lia.
  rewrite !Z.shiftr_div_pow2 by lia.
  unfold wrap32.
  change (2 ^ 31) with 2147483648. change (2 ^ 32) with 4294967296.
  change (2 ^ 24) with 16777216. change (2 ^ 16) with 65536.
  change (2 ^ 8) with 256. change (2 ^ 0) with 1.
  repeat split; Z.div_mod_to_equations; lia.
Qed.

Lemma sar_band_255 v s :
  0 <= s < 32 ->
  band (sar (Int v) (Int s)) (Int 0xFF) = Int (byteAt s v).
Proof.
  intros Hs. unfold band, sar, ToInt32, byteAt.
  rewrite (wrap32_small s) by lia.
  rewrite (Z.mod_small s 32) by lia.
  rewrite (wrap32_small 255) by lia.
  rewrite (wrap32_small (Z.shiftr (wrap32 v) s)); [reflexivity|].
  pose proof (wrap32_range v) as Hr.
  rewrite Z.shiftr_div_pow2 by lia.
  assert (0 < 2 ^ s) by (apply Z.pow_pos_nonneg; lia).
  split.
  - apply Z.div_le_lower_bound; [lia|]. nia.
  - apply Z.div_lt_upper_bound; [lia|]. nia.
Qed.

Lemma toIPv4_bytes v :
  toIPv4 (Int v)
  = dotted (byteAt 24 v) (byteAt 16 v) (byteAt 8 v) (byteAt 0 v).
Proof.
  unfold toIPv4, dotted. cbn [map].
  rewrite !sar_band_255 by lia. reflexivity.
Qed.

(** ** The IPv4 codec on dotted texts *)

Lemma octet_no_dot x : 0 <= x <= 255 -> ~ In "."%char (toString 10 x).
Proof.
  intros Hx. apply digits_no_dot, canonical_octet_digits.
  apply (octet_facts x Hx).
Qed.

Lemma split_dotted a b c d :
  0 <= a <= 255 -> 0 <= b <= 255 -> 0 <= c <= 255 -> 0 <= d <= 255 ->
  split "." (chars (dotted a b c d)) = map (toString 10) [a; b; c; d].
Proof.
  intros Ha Hb Hc Hd. unfold dotted. rewrite chars_text.
  apply split_join; [discriminate|].
  cbn [map]. repeat constructor; apply octet_no_dot; assumption.
Qed.

Lemma dotted_canonical a b c d :
  0 <= a <= 255 -> 0 <= b <= 255 -> 0 <= c <= 255 -> 0 <= d <= 255 ->
  isValidIPv4 (dotted a b c d) = true.
Proof.
  intros Ha Hb Hc Hd. unfold isValidIPv4, canonical_quad.
  rewrite split_dotted by assumption. cbn [map].
  rewrite (proj1 (octet_facts a Ha)), (proj1 (octet_facts b Hb)),
    (proj1 (octet_facts c Hc)), (proj1 (octet_facts d Hd)).
  reflexivity.
Qed.

Lemma canonical_quad_dotted s :
  canonical_quad (chars s) = true ->
  exists a b c d,
    (0 <= a <= 255 /\ 0 <= b <= 255 /\ 0 <= c <= 255 /\ 0 <= d <= 255)
    /\ s = dotted a b c d.
Proof.
  unfold canonical_quad. intros H.
  pose proof (join_split "." (chars s)) as Hj.
  destruct (split "." (chars s)) as [|pa [|pb [|pc [|pd [|pe rest]]]]];
    try discriminate H.
  apply andb_true_iff in H as [H Hd]. apply andb_true_iff in H as [H Hc].
  apply andb_true_iff in H as [Ha Hb].
  apply canonical_octet_render in Ha as (a & Ha & ->).
  apply canonical_octet_render in Hb as (b & Hb & ->).
  apply canonical_octet_render in Hc as (c & Hc & ->).
  apply canonical_octet_render in Hd as (d & Hd & ->).
  exists a, b, c, d. split; [auto|].
  unfold dotted. cbn [map]. rewrite Hj. symmetry. apply text_chars.
Qed.

Lemma fromIPv4_dotted isIPv4 a b c d :
  0 <= a <= 255 -> 0 <= b <= 255 -> 0 <= c <= 255 -> 0 <= d <= 255 ->
  isIPv4 (dotted a b c d) = true ->
  fromIPv4 isIPv4 (dotted a b c d) = Ok (Int (pack32 a b c d)).
Proof.
  intros Ha Hb Hc Hd Hv. unfold fromIPv4. rewrite Hv. cbn [negb].
  rewrite split_dotted by assumption. cbn [map].
  rewrite (proj2 (octet_facts a Ha)), (proj2 (octet_facts b Hb)),
    (proj2 (octet_facts c Hc)), (proj2 (octet_facts d Hd)).
  apply reduce_octets; assumption.
Qed.

Lemma toIPv4_pack32 a b c d :
  0 <= a <= 255 -> 0 <= b <= 255 -> 0 <= c <= 255 -> 0 <= d <= 255 ->
  toIPv4 (Int (pack32 a b c d)) = dotted a b c d.
Proof.
  intros Ha Hb Hc Hd. rewrite toIPv4_bytes.
  destruct (byteAt_pack32 a b c d Ha Hb Hc Hd) as (-> & -> & -> & ->).
  reflexivity.
Qed.

Lemma pack32_sign a b c d :
  0 <= a <= 255 -> 0 <= b <= 255 -> 0 <= c <= 255 -> 0 <= d <= 255 ->
  (a < 128 -> pack32 a b c d = a * 2 ^ 24 + b * 2 ^ 16 + c * 2 ^ 8 + d) /\
  (128 <= a ->
   pack32 a b c d = a * 2 ^ 24 + b * 2 ^ 16 + c * 2 ^ 8 + d - 2 ^ 32).
Proof.
  intros Ha Hb Hc Hd. unfold pack32, wrap32.
  change (2 ^ 31) with 2147483648. change (2 ^ 32) with 4294967296.
  change (2 ^ 24) with 16777216. change (2 ^ 16) with 65536.
  change (2 ^ 8) with 256.
  split; intros H; Z.div_mod_to_equations; lia.
Qed.

(** ** Hextets *)

Lemma hex_not_colon c : is_digit 16 c = true -> c <> ":"%char.
Proof. intros H ->. discriminate H. Qed.

Lemma hex_no_colon p : forallb (is_digit 16) p = true -> ~ In ":"%char p.
Proof.
  intros H Hin. rewrite forallb_forall in H.
  apply (hex_not_colon _ (H _ Hin)). reflexivity.
Qed.

Lemma hextet_digits p : hextet p = true -> forallb (is_digit 16) p = true.
Proof.
  destruct p as [|c r]; [discriminate|]. unfold hextet.
  intros H. apply andb_true_iff in H as [_ H]. exact H.
Qed.

Lemma hextet_nonempty p : hextet p = true -> p <> [].
Proof. destruct p; [discriminate|discriminate]. Qed.

Lemma hextet_no_colon p : hextet p = true -> ~ In ":"%char p.
Proof. intros H. apply hex_no_colon, hextet_digits, H. Qed.

Lemma hex_facts x :
  0 <= x < 65536 ->
  hextet (toString 16 x) = true /\ section_value (toString 16 x) = x /\
  (x = 0 -> toString 16 x = chars "0") /\
  (x <> 0 -> exists c r, toString 16 x = c :: r /\ c <> "0"%char).
Proof.
  intros Hx.
  pose proof (all_from_spec _ hex_ok 0 hextets_ok x) as H.
  rewrite Z2Nat.id in H by lia. specialize (H ltac:(lia)).
  unfold hex_ok in H.
  apply andb_true_iff in H as [H H3]. apply andb_true_iff in H as [H1 H2].
  apply Z.eqb_eq in H2.
  split; [exact H1|]. split; [exact H2|].
  destruct (toString 16 x) as [|c r]; [discriminate H1|].
  destruct (Ascii.eqb_spec c "0") as [->|Hc].
  - apply andb_true_iff in H3 as [H3 H4]. apply Z.eqb_eq in H3.
    destruct r; [|discriminate H4].
    split; [reflexivity|]. intros Hne. contradiction.
  - assert (Hnz : negb (x =? 0) = true).
    { destruct c as [[] [] [] [] [] [] [] []]; try exact H3.
      exfalso. apply Hc. reflexivity. }
    apply negb_true_iff, Z.eqb_neq in Hnz.
    split; [intros E; contradiction|].
    intros _. exists c, r. split; [reflexivity|exact Hc].
Qed.

(** ** [parseInt] on hexadecimal digits *)

Lemma digits_prefix_all radix p :
  forallb (is_digit radix) p = true -> digits_prefix radix p = p.
Proof.
  induction p as [|c p IH]; simpl; [reflexivity|]. intros H.
  apply andb_true_iff in H as [Hc Hp]. rewrite Hc, IH by exact Hp.
  reflexivity.
Qed.

Lemma hex_not_ws c : is_digit 16 c = true -> is_ws c = false.
Proof.
  destruct c as [[] [] [] [] [] [] [] []]; intros H;
    try discriminate H; reflexivity.
Qed.

Lemma parseInt_hex p :
  p <> [] -> forallb (is_digit 16) p = true ->
  parseInt p 16 = Int (digits_value 16 p).
Proof.
  intros Hne Hp. destruct p as [|c r]; [congruence|].
  pose proof Hp as Hall. cbn [forallb] in Hp.
  apply andb_true_iff in Hp as [Hc Hr].
  unfold parseInt. cbn [skip_ws]. rewrite (hex_not_ws c Hc).
  unfold strip_sign.
  destruct (Ascii.eqb_spec c "-") as [->|_]; [discriminate Hc|].
  destruct (Ascii.eqb_spec c "+") as [->|_]; [discriminate Hc|].
  change ((16 <? 2) || (36 <? 16)) with false. change (16 =? 16) with true.
  cbv iota beta.
  assert (Hx : strip_0x (c :: r) = c :: r).
  { unfold strip_0x. destruct r as [|d r']; [reflexivity|].
    cbn [forallb] in Hr. apply andb_true_iff in Hr as [Hd _].
    destruct (Ascii.eqb_spec d "x") as [->|_]; [discriminate Hd|].
    destruct (Ascii.eqb_spec d "X") as [->|_]; [discriminate Hd|].
    rewrite andb_false_r. reflexivity. }
  rewrite Hx, (digits_prefix_all 16 _ Hall). reflexivity.
Qed.

Lemma digit_or_zero_bound radix c :
  is_digit radix c = true -> 0 <= digit_or_zero c < radix.
Proof.
  unfold is_digit, digit_or_zero, digit_value.
  set (n := Z.of_nat (nat_of_ascii c)).
  destruct ((48 <=? n) && (n <=? 57)) eqn:E1.
  { intros H. apply Z.ltb_lt in H. apply andb_true_iff in E1 as [E1 _].
    apply Z.leb_le in E1. lia. }
  destruct ((97 <=? n) && (n <=? 122)) eqn:E2.
  { intros H. apply Z.ltb_lt in H. apply andb_true_iff in E2 as [E2 _].
    apply Z.leb_le in E2. lia. }
  destruct ((65 <=? n) && (n <=? 90)) eqn:E3.
  { intros H. apply Z.ltb_lt in H. apply andb_true_iff in E3 as [E3 _].
    apply Z.leb_le in E3. lia. }
  discriminate.
Qed.

Lemma digits_fold_bound radix p : forall acc n,
  0 < radix -> forallb (is_digit radix) p = true ->
  0 <= acc < radix ^ Z.of_nat n ->
  0 <= fold_left (fun a c => a * radix + digit_or_zero c) p acc
     < radix ^ Z.of_nat (n + List.length p).
Proof.
  induction p as [|c p IH]; intros acc n Hr Hp Hacc.
  - cbn [fold_left List.length]. rewrite Nat.add_0_r. exact Hacc.
  - cbn [forallb] in Hp. apply andb_true_iff in Hp as [Hc Hp].
    cbn [fold_left List.length].
    replace (n + S (List.length p))%nat with (S n + List.length p)%nat by lia.
    apply IH; [exact Hr|exact Hp|].
    pose proof (digit_or_zero_bound radix c Hc) as Hd.
    rewrite Nat2Z.inj_succ, Z.pow_succ_r by lia. nia.
Qed.

Lemma hextet_value p :
  hextet p = true -> 0 <= section_value p < 65536.
Proof.
  intros H. pose proof (hextet_digits p H) as Hd.
  destruct p as [|c r]; [discriminate H|].
  unfold hextet in H. apply andb_true_iff in H as [Hlen _].
  apply Nat.leb_le in Hlen.
  pose proof (digits_fold_bound 16 (c :: r) 0 0 ltac:(lia) Hd ltac:(simpl; lia))
    as Hb.
  unfold section_value, digits_value.
  assert (16 ^ Z.of_nat (0 + List.length (c :: r)) <= 16 ^ 4).
  { apply Z.pow_le_mono_r; lia. }
  change (16 ^ 4) with 65536 in *. lia.
Qed.

Lemma addSection_hextet acc p :
  hextet p = true -> addSection acc p = Ok (Z.shiftl acc 16 + section_value p).
Proof.
  intros H. unfold addSection.
  assert (orZero p = p) as -> by (destruct p; [discriminate H|reflexivity]).
  rewrite parseInt_hex;
    [reflexivity|apply hextet_nonempty, H|apply hextet_digits, H].
Qed.

Lemma addSection_empty acc :
  addSection acc [] = Ok (Z.shiftl acc 16 + section_value []).
Proof. reflexivity. Qed.

Lemma addSection_zero acc :
  addSection acc (chars "0") = Ok (Z.shiftl acc 16 + 0).
Proof. reflexivity. Qed.

(** ** Segments and their value *)

Lemma segments_range v : Forall (fun x => 0 <= x < 65536) (segments v).
Proof.
  unfold segments. apply Forall_map, Forall_forall. intros i _.
  change 0xFFFF with (Z.ones 16). rewrite Z.land_ones by lia.
  change (2 ^ 16) with 65536. apply Z.mod_pos_bound. lia.
Qed.

Lemma segments_length v : List.length (segments v) = 8%nat.
Proof. reflexivity. Qed.

Lemma segments_value_segments v :
  0 <= v < 2 ^ 128 -> segments_value (segments v) = v.
Proof.
  intros Hv. unfold segments_value, segments. cbn [map fold_left].
  change 0xFFFF with (Z.ones 16). rewrite !Z.land_ones by lia.
  rewrite !Z.shiftl_mul_pow2 by lia. rewrite !Z.shiftr_div_pow2 by lia.
  change (2 ^ 128) with 340282366920938463463374607431768211456 in Hv.
  change (2 ^ 16) with 65536.
  change (2 ^ (7 * 16)) with 5192296858534827628530496329220096.
  change (2 ^ (6 * 16)) with 79228162514264337593543950336.
  change (2 ^ (5 * 16)) with 1208925819614629174706176.
  change (2 ^ (4 * 16)) with 18446744073709551616.
  change (2 ^ (3 * 16)) with 281474976710656.
  change (2 ^ (2 * 16)) with 4294967296.
  change (2 ^ (1 * 16)) with 65536.
  change (2 ^ (0 * 16)) with 1.
  Z.div_mod_to_equations. lia.
Qed.

Lemma fold_segments_bound xs : forall acc n,
  Forall (fun x => 0 <= x < 65536) xs ->
  0 <= acc < 65536 ^ Z.of_nat n ->
  0 <= fold_left (fun a x => Z.shiftl a 16 + x) xs acc
     < 65536 ^ Z.of_nat (n + List.length xs).
Proof.
  induction xs as [|x xs IH]; intros acc n Hxs Hacc.
  - cbn [fold_left List.length]. rewrite Nat.add_0_r. exact Hacc.
  - inversion Hxs as [|? ? Hx Hrest]; subst.
    cbn [fold_left List.length].
    replace (n + S (List.length xs))%nat with (S n + List.length xs)%nat
      by lia.
    apply IH; [exact Hrest|].
    rewrite Z.shiftl_mul_pow2 by lia. change (2 ^ 16) with 65536.
    rewrite Nat2Z.inj_succ, Z.pow_succ_r by lia. nia.
Qed.

Lemma segments_value_bound xs :
  Forall (fun x => 0 <= x < 65536) xs -> (List.length xs <= 8)%nat ->
  0 <= segments_value xs < 2 ^ 128.
Proof.
  intros Hxs Hlen.
  pose proof (fold_segments_bound xs 0 0 Hxs ltac:(simpl; lia)) as Hb.
  unfold segments_value.
  assert (65536 ^ Z.of_nat (0 + List.length xs) <= 65536 ^ 8).
  { apply Z.pow_le_mono_r; lia. }
  change (65536 ^ 8) with (2 ^ 128) in *. lia.
Qed.

Lemma reduce_from_sections secs : forall acc,
  Forall (fun p => p = [] \/ hextet p = true) secs ->
  reduce_from addSection secs acc
  = Ok (fold_left (fun a x => Z.shiftl a 16 + x) (map section_value secs) acc).
Proof.
  induction secs as [|p secs IH]; intros acc Hs; [reflexivity|].
  inversion Hs as [|? ? Hp Hrest]; subst.
  cbn [reduce_from map fold_left].
  destruct Hp as [->|Hp].
  - rewrite addSection_empty. cbn [bind]. apply IH, Hrest.
  - rewrite (addSection_hextet acc p Hp). cbn [bind]. apply IH, Hrest.
Qed.

(** ** The zero-run replacement of [toIPv6] on colon-separated pieces *)

Lemma colons_cons p ps : colons (p :: ps) = p ++ after ps.
Proof.
  revert p. induction ps as [|q ps IH]; intros p.
  - cbn. symmetry. apply app_nil_r.
  - change (colons (p :: q :: ps)) with (p ++ ":"%char :: colons (q :: ps)).
    rewrite IH. reflexivity.
Qed.

Lemma after_cons p ps : after (p :: ps) = ":"%char :: p ++ after ps.
Proof. reflexivity. Qed.

Lemma after_app ps qs : after (ps ++ qs) = after ps ++ after qs.
Proof. unfold after. apply flat_map_app. Qed.

Lemma after_colons ps : ps <> [] -> after ps = ":"%char :: colons ps.
Proof.
  destruct ps as [|p ps]; [congruence|]. intros _.
  rewrite after_cons, colons_cons. reflexivity.
Qed.

Lemma piece_head p :
  piece p -> exists c r, p = c :: r /\ c <> ":"%char /\ ~ In ":"%char r.
Proof.
  intros [Hne Hc]. destruct p as [|c r]; [congruence|].
  exists c, r. split; [reflexivity|]. split.
  - intros ->. apply Hc. left. reflexivity.
  - intros H. apply Hc. right. exact H.
Qed.

Lemma zero_run_tail_after k post :
  starts_nonzero post ->
  zero_run_tail (after (repeat (chars "0") k ++ post)) = Some (colons post).
Proof.
  intros Hpost. induction k as [|k IH].
  - cbn [repeat app]. destruct post as [|p ps]; [reflexivity|].
    destruct Hpost as [Hp Hz].
    destruct (piece_head p Hp) as (c & r & -> & Hc & Hr).
    cbn [hd] in Hz.
    rewrite after_cons, colons_cons. cbn [zero_run_tail app].
    rewrite Ascii.eqb_refl.
    destruct (Ascii.eqb_spec c "0") as [->|_]; [congruence|reflexivity].
  - cbn [repeat app]. rewrite after_cons.
    change (chars "0" ++ ?x) with ("0"%char :: x).
    cbn [zero_run_tail]. rewrite !Ascii.eqb_refl, IH. reflexivity.
Qed.

Lemma zero_run_at_colon_other c s :
  c <> ":"%char -> zero_run_at_colon (c :: s) = None.
Proof.
  intros Hc. unfold zero_run_at_colon. destruct s as [|d s]; [reflexivity|].
  destruct (Ascii.eqb_spec c ":") as [->|_]; [congruence|reflexivity].
Qed.

Lemma scan_piece p rest :
  ~ In ":"%char p ->
  replace_zero_run_scan (p ++ rest) = p ++ replace_zero_run_scan rest.
Proof.
  induction p as [|c p IH]; intros Hp; [reflexivity|].
  cbn [app replace_zero_run_scan].
  rewrite zero_run_at_colon_other.
  - rewrite IH; [reflexivity|]. intros H. apply Hp. right. exact H.
  - intros ->. apply Hp. left. reflexivity.
Qed.

Lemma scan_cons c s :
  replace_zero_run_scan (c :: s)
  = match zero_run_at_colon (c :: s) with
    | Some rest => ":"%char :: ":"%char :: rest
    | None => c :: replace_zero_run_scan s
    end.
Proof. reflexivity. Qed.

Lemma zero_run_at_colon_nonzero a c s :
  c <> "0"%char -> zero_run_at_colon (a :: c :: s) = None.
Proof.
  intros Hc. unfold zero_run_at_colon.
  destruct (Ascii.eqb_spec c "0") as [->|_]; [congruence|].
  rewrite andb_false_r. reflexivity.
Qed.

Lemma scan_nonzero_piece p rest :
  nonzero_piece p ->
  replace_zero_run_scan (":"%char :: p ++ rest)
  = ":"%char :: p ++ replace_zero_run_scan rest.
Proof.
  intros [Hp Hz]. destruct (piece_head p Hp) as (c & r & -> & Hc & Hr).
  cbn [hd] in Hz. rewrite scan_cons.
  change ((c :: r) ++ rest) with (c :: (r ++ rest)) at 1.
  rewrite (zero_run_at_colon_nonzero _ c _ Hz).
  f_equal. apply scan_piece. apply Hp.
Qed.

Lemma scan_after_zero_run pre k post :
  Forall nonzero_piece pre -> starts_nonzero post ->
  replace_zero_run_scan (after (pre ++ repeat (chars "0") (S k) ++ post))
  = after pre ++ ":"%char :: ":"%char :: colons post.
Proof.
  intros Hpre Hpost. induction Hpre as [|p pre Hp Hpre IH].
  - cbn [app repeat]. rewrite after_cons.
    change (chars "0" ++ ?x) with ("0"%char :: x).
    cbn [replace_zero_run_scan]. unfold zero_run_at_colon.
    rewrite !Ascii.eqb_refl. cbn [andb].
    rewrite (zero_run_tail_after k post Hpost). reflexivity.
  - change ((p :: pre) ++ ?x) with (p :: (pre ++ x)).
    rewrite !after_cons. rewrite (scan_nonzero_piece p _ Hp), IH.
    cbn [app]. rewrite <- app_assoc. reflexivity.
Qed.

Lemma scan_after_nonzero ps :
  Forall nonzero_piece ps -> replace_zero_run_scan (after ps) = after ps.
Proof.
  intros H. induction H as [|p ps Hp Hps IH]; [reflexivity|].
  rewrite after_cons, (scan_nonzero_piece p _ Hp), IH. reflexivity.
Qed.

Lemma zero_run_at_start_nonzero p rest :
  nonzero_piece p -> zero_run_at_start (p ++ rest) = None.
Proof.
  intros [Hp Hz]. destruct (piece_head p Hp) as (c & r & -> & Hc & Hr).
  cbn [hd] in Hz. cbn [app zero_run_at_start].
  destruct (Ascii.eqb_spec c "0") as [->|_]; [congruence|reflexivity].
Qed.

Lemma replace_zero_run_first pre k post :
  Forall nonzero_piece pre -> starts_nonzero post ->
  replace_zero_run (colons (pre ++ repeat (chars "0") (S k) ++ post))
  = colons pre ++ ":"%char :: ":"%char :: colons post.
Proof.
  intros Hpre Hpost. destruct pre as [|p pre].
  - cbn [app repeat]. rewrite colons_cons.
    change (chars "0" ++ ?x) with ("0"%char :: x).
    unfold replace_zero_run, zero_run_at_start. rewrite Ascii.eqb_refl.
    rewrite (zero_run_tail_after k post Hpost). reflexivity.
  - inversion Hpre as [|? ? Hp Hpre']; subst.
    change ((p :: pre) ++ ?x) with (p :: (pre ++ x)).
    rewrite !colons_cons. unfold replace_zero_run.
    rewrite (zero_run_at_start_nonzero p _ Hp).
    rewrite scan_piece by apply Hp.
    rewrite (scan_after_zero_run pre k post Hpre' Hpost).
    rewrite <- app_assoc. reflexivity.
Qed.

Lemma replace_zero_run_none ps :
  Forall nonzero_piece ps -> replace_zero_run (colons ps) = colons ps.
Proof.
  intros H. destruct H as [|p ps Hp Hps]; [reflexivity|].
  rewrite colons_cons. unfold replace_zero_run.
  rewrite (zero_run_at_start_nonzero p _ Hp).
  rewrite scan_piece by apply Hp.
  rewrite (scan_after_nonzero ps Hps). reflexivity.
Qed.

(** ** The colon-run replacement is the identity on these texts *)

Lemma three_colons_other c s : c <> ":"%char -> three_colons (c :: s) = false.
Proof.
  intros Hc. unfold three_colons. destruct s as [|b [|d s]]; try reflexivity.
  destruct (Ascii.eqb_spec c ":") as [->|_]; [congruence|reflexivity].
Qed.

Lemma three_colons_second a c s :
  c <> ":"%char -> three_colons (a :: c :: s) = false.
Proof.
  intros Hc. unfold three_colons. destruct s as [|d s]; [reflexivity|].
  destruct (Ascii.eqb_spec c ":") as [->|_]; [congruence|].
  rewrite andb_false_r. reflexivity.
Qed.

Lemma replace_colons_piece p rest :
  ~ In ":"%char p -> replace_colons (p ++ rest) = p ++ replace_colons rest.
Proof.
  induction p as [|c p IH]; intros Hp; [reflexivity|].
  cbn [app replace_colons]. rewrite three_colons_other.
  - rewrite IH; [reflexivity|]. intros H. apply Hp. right. exact H.
  - intros ->. apply Hp. left. reflexivity.
Qed.

Lemma replace_colons_colon_piece p rest :
  piece p ->
  replace_colons (":"%char :: p ++ rest) = ":"%char :: p ++ replace_colons rest.
Proof.
  intros Hp. destruct (piece_head p Hp) as (c & r & -> & Hc & Hr).
  cbn [app]. cbn [replace_colons].
  rewrite (three_colons_second _ c _ Hc), (three_colons_other c _ Hc).
  do 2 f_equal. apply replace_colons_piece. exact Hr.
Qed.

Lemma replace_colons_after ps rest :
  Forall piece ps ->
  replace_colons (after ps ++ rest) = after ps ++ replace_colons rest.
Proof.
  intros H. induction H as [|p ps Hp Hps IH]; [reflexivity|].
  rewrite after_cons. cbn [app]. rewrite <- app_assoc.
  rewrite (replace_colons_colon_piece p _ Hp), IH.
  cbn [app]. rewrite <- app_assoc. reflexivity.
Qed.

Lemma replace_colons_colons ps :
  Forall piece ps -> replace_colons (colons ps) = colons ps.
Proof.
  intros H. destruct H as [|p ps Hp Hps]; [reflexivity|].
  rewrite colons_cons, replace_colons_piece by apply Hp.
  rewrite <- (app_nil_r (after ps)) at 1.
  rewrite (replace_colons_after ps [] Hps), app_nil_r. reflexivity.
Qed.

Lemma replace_colons_cons c s :
  replace_colons (c :: s)
  = if three_colons (c :: s) then ":"%char :: ":"%char :: skip_colons (c :: s)
    else c :: replace_colons s.
Proof. reflexivity. Qed.

Lemma three_colons_third a b c s :
  c <> ":"%char -> three_colons (a :: b :: c :: s) = false.
Proof.
  intros Hc. unfold three_colons.
  destruct (Ascii.eqb_spec c ":") as [->|_]; [congruence|].
  apply andb_false_r.
Qed.

Lemma replace_colons_after_nil ps :
  Forall piece ps -> replace_colons (after ps) = after ps.
Proof.
  intros H. rewrite <- (app_nil_r (after ps)) at 1.
  rewrite (replace_colons_after ps [] H). apply app_nil_r.
Qed.

Lemma replace_colons_pair post :
  Forall piece post ->
  replace_colons (":"%char :: ":"%char :: colons post)
  = ":"%char :: ":"%char :: colons post.
Proof.
  intros H. destruct H as [|p ps Hp Hps]; [reflexivity|].
  rewrite colons_cons.
  destruct (piece_head p Hp) as (c & r & E & Hc & Hr).
  rewrite replace_colons_cons.
  assert (H3 : three_colons (":"%char :: ":"%char :: p ++ after ps) = false).
  { rewrite E. apply three_colons_third. exact Hc. }
  rewrite H3. f_equal.
  rewrite (replace_colons_colon_piece p _ Hp).
  rewrite (replace_colons_after_nil ps Hps). reflexivity.
Qed.

Lemma replace_colons_abbreviated pre post :
  Forall piece pre -> Forall piece post ->
  replace_colons (colons pre ++ ":"%char :: ":"%char :: colons post)
  = colons pre ++ ":"%char :: ":"%char :: colons post.
Proof.
  intros Hpre Hpost. destruct Hpre as [|p pre Hp Hpre].
  - apply replace_colons_pair, Hpost.
  - rewrite colons_cons, <- app_assoc.
    rewrite replace_colons_piece by apply Hp.
    rewrite (replace_colons_after pre _ Hpre).
    rewrite (replace_colons_pair post Hpost). reflexivity.
Qed.

(** ** Splitting an abbreviated text, and the expansion of [fromIPv6] *)

Lemma hextet_piece p : hextet p = true -> piece p.
Proof.
  intros H. split; [apply hextet_nonempty, H|apply hextet_no_colon, H].
Qed.

Lemma hextets_pieces ps : Forall (fun p => hextet p = true) ps -> Forall piece ps.
Proof. apply Forall_impl. exact hextet_piece. Qed.

Lemma pieces_no_colon ps :
  Forall piece ps -> Forall (fun p => ~ In ":"%char p) ps.
Proof. apply Forall_impl. intros p Hp. apply Hp. Qed.

Lemma pieces_nonempty ps : Forall piece ps -> Forall (fun p => p <> []) ps.
Proof. apply Forall_impl. intros p Hp. apply Hp. Qed.

Lemma split_sep sep s : split sep (sep :: s) = [] :: split sep s.
Proof. cbn [split]. rewrite Ascii.eqb_refl. reflexivity. Qed.

Lemma split_colons ps :
  Forall piece ps -> split ":" (colons ps) = or_blank ps.
Proof.
  intros H. destruct ps as [|p ps]; [reflexivity|].
  apply split_join; [discriminate|apply pieces_no_colon, H].
Qed.

Lemma split_colons_app pre rest :
  pre <> [] -> Forall piece pre ->
  split ":" (colons pre ++ ":"%char :: rest) = pre ++ split ":" rest.
Proof.
  intros Hne H. induction H as [|p ps Hp Hps IH]; [congruence|].
  destruct ps as [|q ps].
  - cbn [colons join app]. apply split_app. apply Hp.
  - change (colons (p :: q :: ps)) with (p ++ ":"%char :: colons (q :: ps)).
    rewrite <- app_assoc. cbn [app].
    rewrite split_app by apply Hp.
    rewrite IH by discriminate. reflexivity.
Qed.

Lemma split_abbreviated pre post :
  Forall piece pre -> Forall piece post ->
  split ":" (colons pre ++ ":"%char :: ":"%char :: colons post)
  = or_blank pre ++ [] :: or_blank post.
Proof.
  intros Hpre Hpost. destruct pre as [|p pre].
  - cbn [colons join app or_blank].
    rewrite !split_sep. fold (colons post).
    rewrite (split_colons post Hpost). reflexivity.
  - rewrite split_colons_app by (discriminate || exact Hpre).
    rewrite split_sep, (split_colons post Hpost). reflexivity.
Qed.

Lemma indexOf_absent ps :
  Forall (fun p => p <> []) ps -> indexOf [] ps = -1.
Proof.
  intros H. induction H as [|p ps Hp Hps IH]; [reflexivity|].
  cbn [indexOf]. destruct (list_eq_dec ascii_dec p []) as [E|_]; [congruence|].
  rewrite IH. reflexivity.
Qed.

Lemma indexOf_first pre rest :
  Forall (fun p => p <> []) pre ->
  indexOf [] (pre ++ [] :: rest) = Z.of_nat (List.length pre).
Proof.
  intros H. induction H as [|p ps Hp Hps IH].
  - cbn [app indexOf List.length].
    destruct (list_eq_dec ascii_dec [] []) as [_|E]; [reflexivity|congruence].
  - cbn [app indexOf]. destruct (list_eq_dec ascii_dec p []) as [E|_];
      [congruence|].
    rewrite IH. cbn [List.length].
    destruct (Z.ltb_spec (Z.of_nat (List.length ps)) 0); lia.
Qed.

Lemma expandSections_full hs :
  Forall (fun p => p <> []) hs -> expandSections hs = Ok hs.
Proof.
  intros H. unfold expandSections. rewrite (indexOf_absent hs H). reflexivity.
Qed.

Lemma expandSections_at A B :
  Forall (fun p => p <> []) A -> (List.length A + List.length B <= 8)%nat ->
  expandSections (A ++ [] :: B)
  = Ok (A ++ repeat (chars "0") (8 - (List.length A + List.length B)) ++ B).
Proof.
  intros HA Hlen. unfold expandSections.
  rewrite (indexOf_first A B HA).
  destruct (Z.eqb_spec (Z.of_nat (List.length A)) (-1)) as [E|_]; [lia|].
  cbn [negb]. unfold new_Array_fill.
  rewrite length_app. cbn [List.length].
  set (n := 8 - Z.of_nat (List.length A + S (List.length B)) + 1).
  assert (Hn : n = Z.of_nat (8 - (List.length A + List.length B))) by lia.
  destruct (Z.ltb_spec n 0) as [?|_]; [lia|].
  destruct (Z.leb_spec (2 ^ 32) n) as [?|_]; [lia|].
  cbn [orb bind]. unfold splice.
  rewrite Hn, !Nat2Z.id. change (Z.to_nat 1) with 1%nat.
  rewrite firstn_app, firstn_all, Nat.sub_diag. cbn [firstn].
  rewrite app_nil_r.
  rewrite skipn_app, skipn_all2 by lia.
  replace (List.length A + 1 - List.length A)%nat with 1%nat by lia.
  reflexivity.
Qed.

Lemma repeat_shift {A : Type} (a : A) n xs :
  repeat a n ++ a :: xs = repeat a (S n) ++ xs.
Proof.
  induction n as [|n IH]; [reflexivity|].
  cbn [repeat app] in *. rewrite IH. reflexivity.
Qed.

Lemma section_value_zeros n :
  map section_value (repeat (chars "0") n) = repeat 0 n.
Proof. induction n as [|n IH]; [reflexivity|]. cbn [repeat map]. f_equal. exact IH. Qed.

Lemma hextet_or_empty_zeros n :
  Forall (fun p => p = [] \/ hextet p = true) (repeat (chars "0") n).
Proof.
  apply Forall_forall. intros p Hp. apply repeat_spec in Hp. subst.
  right. reflexivity.
Qed.

Lemma hextets_or_empty ps :
  Forall (fun p => hextet p = true) ps ->
  Forall (fun p => p = [] \/ hextet p = true) ps.
Proof. apply Forall_impl. intros p Hp. right. exact Hp. Qed.

Lemma expand_abbreviated pre post :
  Forall (fun p => hextet p = true) pre ->
  Forall (fun p => hextet p = true) post ->
  (List.length pre + List.length post <= 7)%nat ->
  exists E,
    expandSections (or_blank pre ++ [] :: or_blank post) = Ok E /\
    List.length E = 8%nat /\
    Forall (fun p => p = [] \/ hextet p = true) E /\
    map section_value E
    = map section_value pre
        ++ repeat 0 (8 - (List.length pre + List.length post))
        ++ map section_value post.
Proof.
  intros Hpre Hpost Hlen.
  pose proof (pieces_nonempty _ (hextets_pieces _ Hpre)) as Npre.
  destruct pre as [|p pre]; destruct post as [|q post].
  - exists (repeat (chars "0") 6 ++ [[]; []]).
    repeat split; try reflexivity.
    repeat constructor; (left; reflexivity) || (right; reflexivity).
  - cbn [or_blank].
    change ([[]] ++ [] :: q :: post) with ([] ++ [] :: [] :: q :: post).
    rewrite expandSections_at; [|constructor|cbn [List.length] in *; lia].
    eexists. split; [reflexivity|].
    cbn [List.length app] in *.
    split; [rewrite length_app, repeat_length; cbn [List.length]; lia|].
    split.
    + apply Forall_app. split; [apply hextet_or_empty_zeros|].
      constructor; [left; reflexivity|]. apply hextets_or_empty, Hpost.
    + rewrite map_app, section_value_zeros. cbn [map].
      change (section_value []) with 0.
      cbn [app]. rewrite repeat_shift. do 2 f_equal. lia.
  - cbn [or_blank].
    rewrite expandSections_at; [|assumption|cbn [List.length] in *; lia].
    eexists. split; [reflexivity|].
    cbn [List.length] in *. rewrite Nat.add_0_r in *.
    split; [rewrite !length_app, repeat_length; cbn [List.length]; lia|].
    split.
    + apply Forall_app. split; [apply hextets_or_empty, Hpre|].
      apply Forall_app. split; [apply hextet_or_empty_zeros|].
      constructor; [left; reflexivity|constructor].
    + rewrite !map_app, section_value_zeros. cbn [map].
      change (section_value []) with 0. f_equal.
      rewrite repeat_shift. do 2 f_equal. lia.
  - cbn [or_blank].
    rewrite expandSections_at; [|assumption|lia].
    eexists. split; [reflexivity|].
    split; [rewrite !length_app, repeat_length; lia|].
    split.
    + apply Forall_app. split; [apply hextets_or_empty, Hpre|].
      apply Forall_app. split; [apply hextet_or_empty_zeros|].
      apply hextets_or_empty, Hpost.
    + rewrite !map_app, section_value_zeros. reflexivity.
Qed.

Lemma fromIPv6_abbreviated isIPv6 pre post :
  Forall (fun p => hextet p = true) pre ->
  Forall (fun p => hextet p = true) post ->
  (List.length pre + List.length post <= 7)%nat ->
  isIPv6 (abbreviated pre post) = true ->
  fromIPv6 isIPv6 (abbreviated pre post)
  = Ok (segments_value
          (map section_value pre
             ++ repeat 0 (8 - (List.length pre + List.length post))
             ++ map section_value post)).
Proof.
  intros Hpre Hpost Hlen Hv. unfold fromIPv6. rewrite Hv. cbn [negb].
  unfold abbreviated. rewrite chars_text.
  rewrite split_abbreviated by (apply hextets_pieces; assumption).
  destruct (expand_abbreviated pre post Hpre Hpost Hlen)
    as (E & -> & _ & HE & Hvals).
  cbn [bind]. rewrite (reduce_from_sections E 0 HE), Hvals. reflexivity.
Qed.

Lemma fromIPv6_full isIPv6 hs :
  hs <> [] -> Forall (fun p => hextet p = true) hs ->
  isIPv6 (text (colons hs)) = true ->
  fromIPv6 isIPv6 (text (colons hs))
  = Ok (segments_value (map section_value hs)).
Proof.
  intros Hne Hhs Hv. unfold fromIPv6. rewrite Hv. cbn [negb].
  rewrite chars_text, (split_colons hs (hextets_pieces _ Hhs)).
  destruct hs as [|h hs]; [congruence|]. cbn [or_blank].
  rewrite expandSections_full
    by apply pieces_nonempty, hextets_pieces, Hhs.
  cbn [bind]. apply reduce_from_sections, hextets_or_empty, Hhs.
Qed.

(** ** [toIPv6] on the segments of its argument *)

Lemma sectionsOf_segments v : sectionsOf v = map (toString 16) (segments v).
Proof. unfold sectionsOf, segments. cbn [fold_left map]. reflexivity. Qed.

Lemma hex_piece x : 0 <= x < 65536 -> piece (toString 16 x).
Proof. intros Hx. apply hextet_piece, (hex_facts x Hx). Qed.

Lemma hex_nonzero_piece x :
  0 <= x < 65536 -> x <> 0 -> nonzero_piece (toString 16 x).
Proof.
  intros Hx Hnz. split; [apply hex_piece, Hx|].
  destruct (hex_facts x Hx) as (_ & _ & _ & H).
  destruct (H Hnz) as (c & r & -> & Hc). exact Hc.
Qed.

Lemma hexes_hextets xs :
  Forall (fun x => 0 <= x < 65536) xs ->
  Forall (fun p => hextet p = true) (map (toString 16) xs).
Proof.
  intros H. apply Forall_map. revert H. apply Forall_impl.
  intros x Hx. apply (hex_facts x Hx).
Qed.

Lemma hexes_nonzero xs :
  Forall (fun x => 0 <= x < 65536) xs -> Forall (fun x => x <> 0) xs ->
  Forall nonzero_piece (map (toString 16) xs).
Proof.
  intros Hr Hnz. apply Forall_map. induction Hr as [|x xs Hx Hxs IH];
    [constructor|].
  inversion Hnz; subst. constructor; [apply hex_nonzero_piece|apply IH];
    assumption.
Qed.

Lemma hexes_value xs :
  Forall (fun x => 0 <= x < 65536) xs ->
  map section_value (map (toString 16) xs) = xs.
Proof.
  intros H. induction H as [|x xs Hx Hxs IH]; [reflexivity|].
  cbn [map]. rewrite IH. f_equal. apply (hex_facts x Hx).
Qed.

Lemma hexes_zeros k :
  map (toString 16) (repeat 0 k) = repeat (chars "0") k.
Proof. induction k as [|k IH]; [reflexivity|]. cbn [repeat map]. rewrite IH. reflexivity. Qed.

Lemma zero_prefix xs :
  exists k post,
    xs = repeat 0 k ++ post /\
    match post with [] => True | y :: _ => y <> 0 end.
Proof.
  induction xs as [|x xs (k & post & -> & Hpost)].
  - exists 0%nat, []. split; [reflexivity|exact I].
  - destruct (Z.eq_dec x 0) as [->|Hx].
    + exists (S k), post. split; [reflexivity|exact Hpost].
    + exists 0%nat, (x :: repeat 0 k ++ post). split; [reflexivity|exact Hx].
Qed.

Lemma first_zero_run xs :
  Forall (fun x => x <> 0) xs \/
  exists pre k post,
    xs = pre ++ repeat 0 (S k) ++ post /\
    Forall (fun x => x <> 0) pre /\
    match post with [] => True | y :: _ => y <> 0 end.
Proof.
  induction xs as [|x xs IH]; [left; constructor|].
  destruct (Z.eq_dec x 0) as [->|Hx].
  - right. destruct (zero_prefix xs) as (k & post & -> & Hpost).
    exists [], k, post. split; [reflexivity|]. split; [constructor|exact Hpost].
  - destruct IH as [Hall|(pre & k & post & -> & Hpre & Hpost)].
    + left. constructor; assumption.
    + right. exists (x :: pre), k, post. split; [reflexivity|].
      split; [constructor; assumption|exact Hpost].
Qed.

Lemma hexes_starts_nonzero post :
  Forall (fun x => 0 <= x < 65536) post ->
  match post with [] => True | y :: _ => y <> 0 end ->
  starts_nonzero (map (toString 16) post).
Proof.
  intros Hr Hnz. destruct post as [|y ys]; [exact I|].
  inversion Hr; subst. cbn [map starts_nonzero].
  apply hex_nonzero_piece; assumption.
Qed.

Lemma toIPv6_zero_run v pre k post :
  segments v = pre ++ repeat 0 (S k) ++ post ->
  Forall (fun x => x <> 0) pre ->
  match post with [] => True | y :: _ => y <> 0 end ->
  toIPv6 v = abbreviated (map (toString 16) pre) (map (toString 16) post).
Proof.
  intros Hseg Hpre Hpost.
  pose proof (segments_range v) as Hr. rewrite Hseg in Hr.
  apply Forall_app in Hr as [Hrpre Hr]. apply Forall_app in Hr as [_ Hrpost].
  unfold toIPv6, abbreviated. f_equal.
  rewrite sectionsOf_segments, Hseg, !map_app, hexes_zeros.
  fold (colons (map (toString 16) pre ++ repeat (chars "0") (S k)
                  ++ map (toString 16) post)).
  rewrite replace_zero_run_first;
    [|apply hexes_nonzero; assumption|apply hexes_starts_nonzero; assumption].
  apply replace_colons_abbreviated; apply hextets_pieces, hexes_hextets;
    assumption.
Qed.

Lemma toIPv6_no_zero v :
  Forall (fun x => x <> 0) (segments v) ->
  toIPv6 v = text (colons (map (toString 16) (segments v))).
Proof.
  intros Hnz. pose proof (segments_range v) as Hr.
  unfold toIPv6. f_equal. rewrite sectionsOf_segments.
  fold (colons (map (toString 16) (segments v))).
  rewrite replace_zero_run_none by (apply hexes_nonzero; assumption).
  apply replace_colons_colons, hextets_pieces, hexes_hextets, Hr.
Qed.

(** ** Formatting then parsing an IPv6 value *)

Lemma fromIPv6_toIPv6 isIPv6 v :
  0 <= v < 2 ^ 128 ->
  isIPv6 (toIPv6 v) = true ->
  fromIPv6 isIPv6 (toIPv6 v) = Ok v.
Proof.
  intros Hv Hacc. pose proof (segments_range v) as Hr.
  pose proof (segments_length v) as Hlen.
  destruct (first_zero_run (segments v))
    as [Hnz|(pre & k & post & Hseg & Hpre & Hpost)].
  - rewrite (toIPv6_no_zero v Hnz) in *.
    rewrite fromIPv6_full;
      [|discriminate|apply hexes_hextets, Hr|exact Hacc].
    rewrite (hexes_value _ Hr), (segments_value_segments v Hv). reflexivity.
  - rewrite (toIPv6_zero_run v pre k post Hseg Hpre Hpost) in *.
    rewrite Hseg in Hr, Hlen.
    apply Forall_app in Hr as [Hrpre Hr]. apply Forall_app in Hr as [_ Hrpost].
    rewrite !length_app, repeat_length in Hlen.
    rewrite fromIPv6_abbreviated;
      [|apply hexes_hextets, Hrpre|apply hexes_hextets, Hrpost
       |rewrite !length_map; lia|exact Hacc].
    rewrite (hexes_value _ Hrpre), (hexes_value _ Hrpost), !length_map.
    replace (8 - (List.length pre + List.length post))%nat with (S k) by lia.
    rewrite <- Hseg, (segments_value_segments v Hv). reflexivity.
Qed.

(** ** Texts of the IPv6 grammar *)

Lemma split_abbrev_sound s : forall l r,
  split_abbrev s = Some (l, r) -> s = l ++ ":"%char :: ":"%char :: r.
Proof.
  induction s as [|c s IH]; intros l r H; [discriminate H|].
  cbn [split_abbrev] in H. destruct s as [|d s2]; [discriminate H|].
  destruct (Ascii.eqb_spec c ":") as [->|_];
    [destruct (Ascii.eqb_spec d ":") as [->|_]|]; cbn [andb] in H.
  - inversion H; subst. reflexivity.
  - destruct (split_abbrev (d :: s2)) as [[l' r']|] eqn:E; [|discriminate H].
    inversion H; subst. rewrite (IH l' r eq_refl). reflexivity.
  - destruct (split_abbrev (d :: s2)) as [[l' r']|] eqn:E; [|discriminate H].
    inversion H; subst. rewrite (IH l' r eq_refl). reflexivity.
Qed.

Lemma colons_side s : colons (side s) = s.
Proof.
  destruct s as [|c s]; [reflexivity|]. unfold side, colons.
  apply join_split.
Qed.

Lemma forallb_hextet ps :
  forallb hextet ps = true -> Forall (fun p => hextet p = true) ps.
Proof. intros H. apply Forall_forall. apply forallb_forall. exact H. Qed.

Lemma ipv6_syntax_cases s :
  ipv6_syntax s = true ->
  (exists hs,
      s = colons hs /\ List.length hs = 8%nat /\
      Forall (fun p => hextet p = true) hs) \/
  (exists pre post,
      s = colons pre ++ ":"%char :: ":"%char :: colons post /\
      Forall (fun p => hextet p = true) pre /\
      Forall (fun p => hextet p = true) post /\
      (List.length pre + List.length post <= 7)%nat).
Proof.
  unfold ipv6_syntax. intros H.
  destruct (split_abbrev s) as [[l r]|] eqn:E.
  - right. apply andb_true_iff in H as [H Hlen].
    apply andb_true_iff in H as [Hl Hr]. apply Nat.leb_le in Hlen.
    exists (side l), (side r). rewrite !colons_side.
    split; [apply split_abbrev_sound, E|].
    split; [apply forallb_hextet, Hl|].
    split; [apply forallb_hextet, Hr|exact Hlen].
  - left. apply andb_true_iff in H as [Hlen Hhs]. apply Nat.eqb_eq in Hlen.
    exists (split ":" s). split; [symmetry; apply join_split|].
    split; [exact Hlen|apply forallb_hextet, Hhs].
Qed.

Lemma hextets_values ps :
  Forall (fun p => hextet p = true) ps ->
  Forall (fun x => 0 <= x < 65536) (map section_value ps).
Proof.
  intros H. apply Forall_map. revert H. apply Forall_impl.
  exact hextet_value.
Qed.

Lemma zeros_values n : Forall (fun x => 0 <= x < 65536) (repeat 0 n).
Proof.
  apply Forall_forall. intros x Hx. apply repeat_spec in Hx. lia.
Qed.

Lemma fromIPv6_valid isIPv6 s :
  isIPv6 s = true -> ipv6_syntax (chars s) = true ->
  exists v, fromIPv6 isIPv6 s = Ok v /\ 0 <= v < 2 ^ 128.
Proof.
  intros Hacc Hsyn.
  destruct (ipv6_syntax_cases _ Hsyn)
    as [(hs & E & Hlen & Hhs)|(pre & post & E & Hpre & Hpost & Hlen)].
  - assert (Es : s = text (colons hs)) by (rewrite <- E; symmetry; apply text_chars).
    subst s. eexists. split.
    + apply fromIPv6_full; [|exact Hhs|exact Hacc].
      intros ->. discriminate Hlen.
    + apply segments_value_bound; [apply hextets_values, Hhs|].
      rewrite length_map. lia.
  - assert (Es : s = abbreviated pre post).
    { unfold abbreviated. rewrite <- E. symmetry. apply text_chars. }
    subst s. eexists. split.
    + apply fromIPv6_abbreviated; assumption.
    + apply segments_value_bound.
      * apply Forall_app. split; [apply hextets_values, Hpre|].
        apply Forall_app. split; [apply zeros_values|].
        apply hextets_values, Hpost.
      * rewrite !length_app, repeat_length, !length_map. lia.
Qed.

(** ** The texts [toIPv6] produces are in the grammar *)

Lemma split_abbrev_cons c s :
  split_abbrev (c :: s)
  = match s with
    | d :: r2 =>
        if Ascii.eqb c ":" && Ascii.eqb d ":" then Some ([], r2)
        else match split_abbrev s with
             | Some (l, r') => Some (c :: l, r')
             | None => None
             end
    | [] => None
    end.
Proof. destruct s; reflexivity. Qed.

Lemma split_abbrev_other c s :
  c <> ":"%char ->
  split_abbrev (c :: s)
  = match split_abbrev s with
    | Some (l, r) => Some (c :: l, r)
    | None => None
    end.
Proof.
  intros Hc. rewrite split_abbrev_cons. destruct s as [|d r2]; [reflexivity|].
  destruct (Ascii.eqb_spec c ":") as [->|_]; [congruence|]. reflexivity.
Qed.

Lemma split_abbrev_piece p rest :
  ~ In ":"%char p ->
  split_abbrev (p ++ rest)
  = match split_abbrev rest with
    | Some (l, r) => Some (p ++ l, r)
    | None => None
    end.
Proof.
  induction p as [|c p IH]; intros Hp.
  - cbn [app]. destruct (split_abbrev rest) as [[l r]|]; reflexivity.
  - assert (Hc : c <> ":"%char) by (intros ->; apply Hp; left; reflexivity).
    assert (Hp' : ~ In ":"%char p) by (intros H; apply Hp; right; exact H).
    cbn [app]. rewrite (split_abbrev_other c _ Hc), (IH Hp').
    destruct (split_abbrev rest) as [[l r]|]; reflexivity.
Qed.

Lemma split_abbrev_colon_piece p rest :
  piece p ->
  split_abbrev (":"%char :: p ++ rest)
  = match split_abbrev rest with
    | Some (l, r) => Some (":"%char :: p ++ l, r)
    | None => None
    end.
Proof.
  intros Hp. destruct (piece_head p Hp) as (c & r0 & E & Hc & Hr).
  rewrite split_abbrev_cons.
  rewrite split_abbrev_piece by apply Hp.
  rewrite E. cbn [app].
  destruct (Ascii.eqb_spec c ":") as [->|_]; [congruence|].
  rewrite andb_false_r.
  destruct (split_abbrev rest) as [[l r]|]; reflexivity.
Qed.

Lemma split_abbrev_after ps rest :
  Forall piece ps ->
  split_abbrev (after ps ++ rest)
  = match split_abbrev rest with
    | Some (l, r) => Some (after ps ++ l, r)
    | None => None
    end.
Proof.
  intros H. induction H as [|p ps Hp Hps IH].
  - cbn [after flat_map app]. destruct (split_abbrev rest) as [[l r]|];
      reflexivity.
  - rewrite after_cons. cbn [app]. rewrite <- app_assoc.
    rewrite (split_abbrev_colon_piece p _ Hp), IH.
    destruct (split_abbrev rest) as [[l r]|]; [|reflexivity].
    cbn [app]. rewrite <- app_assoc. reflexivity.
Qed.

Lemma split_abbrev_colons ps rest :
  Forall piece ps ->
  split_abbrev (colons ps ++ rest)
  = match split_abbrev rest with
    | Some (l, r) => Some (colons ps ++ l, r)
    | None => None
    end.
Proof.
  intros H. destruct H as [|p ps Hp Hps].
  - cbn [colons join app]. destruct (split_abbrev rest) as [[l r]|];
      reflexivity.
  - rewrite colons_cons, <- app_assoc.
    rewrite split_abbrev_piece by apply Hp.
    rewrite (split_abbrev_after ps rest Hps).
    destruct (split_abbrev rest) as [[l r]|]; [|reflexivity].
    rewrite <- app_assoc. reflexivity.
Qed.

Lemma side_colons ps : Forall piece ps -> side (colons ps) = ps.
Proof.
  intros H. destruct ps as [|p ps]; [reflexivity|].
  pose proof (split_colons (p :: ps) H) as Hs. cbn [or_blank] in Hs.
  inversion H as [|? ? Hp _]; subst.
  destruct (piece_head p Hp) as (c & r & E & _ & _).
  unfold side. rewrite colons_cons in *. rewrite E in *. exact Hs.
Qed.

Lemma forallb_hextets ps :
  Forall (fun p => hextet p = true) ps -> forallb hextet ps = true.
Proof. intros H. apply forallb_forall. apply Forall_forall. exact H. Qed.

Lemma colons_in_grammar hs :
  List.length hs = 8%nat -> Forall (fun p => hextet p = true) hs ->
  ipv6_syntax (colons hs) = true.
Proof.
  intros Hlen Hhs. pose proof (hextets_pieces _ Hhs) as Hp.
  unfold ipv6_syntax.
  pose proof (split_abbrev_colons hs [] Hp) as E.
  rewrite app_nil_r in E. cbn [split_abbrev] in E. rewrite E.
  rewrite (split_colons hs Hp).
  destruct hs as [|h hs]; [discriminate Hlen|]. cbn [or_blank].
  rewrite Hlen, (forallb_hextets _ Hhs). reflexivity.
Qed.

Lemma abbreviated_in_grammar pre post :
  Forall (fun p => hextet p = true) pre ->
  Forall (fun p => hextet p = true) post ->
  (List.length pre + List.length post <= 7)%nat ->
  isValidIPv6 (abbreviated pre post) = true.
Proof.
  intros Hpre Hpost Hlen. unfold isValidIPv6, abbreviated, ipv6_syntax.
  rewrite chars_text.
  rewrite (split_abbrev_colons pre _ (hextets_pieces _ Hpre)).
  cbn [split_abbrev]. rewrite !Ascii.eqb_refl. cbn [andb].
  rewrite app_nil_r.
  rewrite !side_colons by (apply hextets_pieces; assumption).
  rewrite (forallb_hextets _ Hpre), (forallb_hextets _ Hpost).
  cbn [andb]. apply Nat.leb_le. exact Hlen.
Qed.

Lemma toIPv6_valid v : isValidIPv6 (toIPv6 v) = true.
Proof.
  pose proof (segments_range v) as Hr.
  pose proof (segments_length v) as Hlen.
  destruct (first_zero_run (segments v))
    as [Hnz|(pre & k & post & Hseg & Hpre & Hpost)].
  - rewrite (toIPv6_no_zero v Hnz). unfold isValidIPv6. rewrite chars_text.
    apply colons_in_grammar; [rewrite length_map; exact Hlen|].
    apply hexes_hextets, Hr.
  - rewrite (toIPv6_zero_run v pre k post Hseg Hpre Hpost).
    rewrite Hseg in Hr, Hlen.
    apply Forall_app in Hr as [Hrpre Hr]. apply Forall_app in Hr as [_ Hrpost].
    rewrite !length_app, repeat_length in Hlen.
    apply abbreviated_in_grammar;
      [apply hexes_hextets, Hrpre|apply hexes_hextets, Hrpost|].
    rewrite !length_map. lia.
Qed.

(** ** The bytes [toIPv4] prints, and the [splice] of [fromIPv6] *)

Lemma byteAt_unsigned v :
  0 <= v < 2 ^ 32 ->
  byteAt 24 v = v / 2 ^ 24 /\ byteAt 16 v = v / 2 ^ 16 mod 256 /\
  byteAt 8 v = v / 2 ^ 8 mod 256 /\ byteAt 0 v = v mod 256.
Proof.
  intros Hv. unfold byteAt.
  change 255 with (Z.ones 8). rewrite !Z.land_ones by lia.
  rewrite !Z.shiftr_div_pow2 by lia.
  unfold wrap32.
  change (2 ^ 31) with 2147483648. change (2 ^ 32) with 4294967296 in *.
  change (2 ^ 24) with 16777216. change (2 ^ 16) with 65536.
  change (2 ^ 8) with 256. change (2 ^ 0) with 1.
  repeat split; Z.div_mod_to_equations; lia.
Qed.

Lemma toIPv4_accepted v : isValidIPv4 (toIPv4 (Int v)) = true.
Proof.
  rewrite toIPv4_bytes. apply dotted_canonical; apply byteAt_range.
Qed.

Lemma fromIPv4_toIPv4 isIPv4 v :
  isIPv4 (toIPv4 (Int v)) = true ->
  exists n,
    fromIPv4 isIPv4 (toIPv4 (Int v)) = Ok n /\ toIPv4 n = toIPv4 (Int v).
Proof.
  intros Hacc. rewrite toIPv4_bytes in *.
  eexists. split.
  - apply fromIPv4_dotted; try apply byteAt_range. exact Hacc.
  - apply toIPv4_pack32; apply byteAt_range.
Qed.

Lemma indexOf_present secs : In [] secs -> 0 <= indexOf [] secs.
Proof.
  induction secs as [|p secs IH]; intros H; [contradiction|].
  cbn [indexOf]. destruct (list_eq_dec ascii_dec p []) as [_|Hp]; [lia|].
  destruct H as [E|H]; [congruence|]. specialize (IH H).
  destruct (Z.ltb_spec (indexOf [] secs) 0); lia.
Qed.

Lemma expandSections_splice secs :
  In [] secs -> (List.length secs <= 9)%nat ->
  expandSections secs
  = Ok (splice (indexOf [] secs) 1
          (repeat (chars "0") (8 - (List.length secs - 1))) secs).
Proof.
  intros Hin Hlen. unfold expandSections.
  pose proof (indexOf_present secs Hin) as Hi.
  destruct (Z.eqb_spec (indexOf [] secs) (-1)) as [E|_]; [lia|].
  cbn [negb]. unfold new_Array_fill.
  assert (Hne : (1 <= List.length secs)%nat).
  { destruct secs; [contradiction|cbn [List.length]; lia]. }
  set (n := 8 - Z.of_nat (List.length secs) + 1).
  assert (Hn : n = Z.of_nat (8 - (List.length secs - 1))) by lia.
  destruct (Z.ltb_spec n 0) as [?|_]; [lia|].
  destruct (Z.leb_spec (2 ^ 32) n) as [?|_]; [lia|].
  cbn [orb bind]. rewrite Hn, Nat2Z.id. reflexivity.
Qed.

Lemma abbreviation_sections s l r :
  ipv6_syntax s = true -> split_abbrev s = Some (l, r) ->
  Forall (fun p => hextet p = true) (side l) /\
  Forall (fun p => hextet p = true) (side r) /\
  (List.length (side l) + List.length (side r) <= 7)%nat /\
  split ":" s = or_blank (side l) ++ [] :: or_blank (side r).
Proof.
  unfold ipv6_syntax. intros H E. rewrite E in H.
  apply andb_true_iff in H as [H Hlen].
  apply andb_true_iff in H as [Hl Hr]. apply Nat.leb_le in Hlen.
  apply forallb_hextet in Hl, Hr.
  repeat split; try assumption.
  rewrite (split_abbrev_sound s l r E) at 1.
  rewrite <- (colons_side l) at 1. rewrite <- (colons_side r) at 1.
  apply split_abbreviated; apply hextets_pieces; assumption.
Qed.

Lemma or_blank_length ps :
  (List.length (or_blank ps) <= Nat.max 1 (List.length ps))%nat.
Proof. destruct ps; cbn [or_blank List.length]; lia. Qed.

(** * The properties of the specification *)

(** ** IPv4 *)

(** What [fromIPv4] returns on an accepted dotted text: the big-endian
    packing of the octets as a 32-bit signed integer, negative exactly when
    the first octet is 128 or more. *)
Lemma fromIPv4_int32 isIPv4 a b c d :
  0 <= a <= 255 -> 0 <= b <= 255 -> 0 <= c <= 255 -> 0 <= d <= 255 ->
  isIPv4 (dotted a b c d) = true ->
  exists r,
    fromIPv4 isIPv4 (dotted a b c d) = Ok (Int r) /\
    - 2 ^ 31 <= r < 2 ^ 31 /\
    (a < 128 -> r = a * 2 ^ 24 + b * 2 ^ 16 + c * 2 ^ 8 + d) /\
    (128 <= a -> r = a * 2 ^ 24 + b * 2 ^ 16 + c * 2 ^ 8 + d - 2 ^ 32).
Proof.
  intros Ha Hb Hc Hd Hacc. exists (pack32 a b c d).
  split; [apply fromIPv4_dotted; assumption|].
  split; [apply wrap32_range|]. apply pack32_sign; assumption.
Qed.

(** C1. The claim: for every accepted string [fromIPv4] returns a value in
    [0, 2^32 - 1].  The code fails it: on the accepted text 128.0.0.0 the
    shift [a << 8] of the last step overflows into the sign bit and the
    result is -2147483648. *)
Theorem fromIPv4_first_octet_128 :
  isValidIPv4 "128.0.0.0" = true /\
  fromIPv4 isValidIPv4 "128.0.0.0" = Ok (Int (-2147483648)) /\
  ~ (0 <= -2147483648 <= 2 ^ 32 - 1).
Proof.
  split; [vm_compute; reflexivity|].
  split; [vm_compute; reflexivity|]. lia.
Qed.

(** C2. Round trip IPv4: for every accepted canonical IPv4 text [s],
    [toIPv4 (fromIPv4 s)] is [s]. *)
Theorem toIPv4_fromIPv4 isIPv4 s :
  isIPv4 s = true -> canonical_quad (chars s) = true ->
  exists n, fromIPv4 isIPv4 s = Ok n /\ toIPv4 n = s.
Proof.
  intros Hacc Hcan.
  destruct (canonical_quad_dotted s Hcan)
    as (a & b & c & d & (Ha & Hb & Hc & Hd) & ->).
  exists (Int (pack32 a b c d)).
  split; [apply fromIPv4_dotted|apply toIPv4_pack32]; assumption.
Qed.

Lemma toIPv4_fromIPv4_witness :
  isValidIPv4 "203.0.113.254" = true /\
  canonical_quad (chars "203.0.113.254") = true /\
  exists n,
    fromIPv4 isValidIPv4 "203.0.113.254" = Ok n /\
    toIPv4 n = "203.0.113.254"%string.
Proof.
  split; [vm_compute; reflexivity|]. split; [vm_compute; reflexivity|].
  apply (toIPv4_fromIPv4 isValidIPv4 "203.0.113.254");
    vm_compute; reflexivity.
Defined.

(** C7. [fromIPv4] packs the octets big-endian: the first octet of the text
    is the most significant byte of the result, the last one the least
    significant, and the result is the packed value modulo 2^32; in
    particular [fromIPv4 "1.2.3.4"] is 0x01020304 = 16909060. *)
Theorem fromIPv4_big_endian :
  (forall isIPv4 a b c d,
      0 <= a <= 255 -> 0 <= b <= 255 -> 0 <= c <= 255 -> 0 <= d <= 255 ->
      isIPv4 (dotted a b c d) = true ->
      exists r,
        fromIPv4 isIPv4 (dotted a b c d) = Ok (Int r) /\
        Z.land (Z.shiftr r 24) 0xFF = a /\
        Z.land (Z.shiftr r 16) 0xFF = b /\
        Z.land (Z.shiftr r 8) 0xFF = c /\
        Z.land r 0xFF = d /\
        r mod 2 ^ 32 = a * 2 ^ 24 + b * 2 ^ 16 + c * 2 ^ 8 + d) /\
  fromIPv4 isValidIPv4 "1.2.3.4" = Ok (Int 0x01020304) /\
  0x01020304 = 16909060.
Proof.
  split; [|split; [vm_compute; reflexivity|reflexivity]].
  intros isIPv4 a b c d Ha Hb Hc Hd Hacc.
  exists (pack32 a b c d).
  split; [apply fromIPv4_dotted; assumption|].
  destruct (byteAt_pack32 a b c d Ha Hb Hc Hd) as (E3 & E2 & E1 & E0).
  unfold byteAt in *.
  rewrite (wrap32_small (pack32 a b c d)) in * by apply wrap32_range.
  change (Z.shiftr (pack32 a b c d) 0) with (pack32 a b c d) in E0.
  repeat (split; [assumption|]).
  unfold pack32. rewrite wrap32_mod. apply Z.mod_small.
  change (2 ^ 32) with 4294967296. change (2 ^ 24) with 16777216.
  change (2 ^ 16) with 65536. change (2 ^ 8) with 256. lia.
Qed.

Lemma fromIPv4_big_endian_witness :
  isValidIPv4 (dotted 192 168 0 1) = true /\
  exists r,
    fromIPv4 isValidIPv4 (dotted 192 168 0 1) = Ok (Int r) /\
    Z.land (Z.shiftr r 24) 0xFF = 192 /\
    Z.land (Z.shiftr r 16) 0xFF = 168 /\
    Z.land (Z.shiftr r 8) 0xFF = 0 /\
    Z.land r 0xFF = 1 /\
    r mod 2 ^ 32 = 192 * 2 ^ 24 + 168 * 2 ^ 16 + 0 * 2 ^ 8 + 1.
Proof.
  split; [vm_compute; reflexivity|].
  apply (proj1 fromIPv4_big_endian isValidIPv4 192 168 0 1);
    try lia; vm_compute; reflexivity.
Defined.

(** C8. [toIPv4] never fails on a 32-bit unsigned integer: it is a total
    function whose result is the dotted text of the four bytes of its
    argument, a text of the IPv4 grammar; [toIPv4 0] is 0.0.0.0 and
    [toIPv4 0xFFFFFFFF] is 255.255.255.255. *)
Theorem toIPv4_total :
  (forall v,
      0 <= v < 2 ^ 32 ->
      toIPv4 (Int v)
      = dotted (v / 2 ^ 24) (v / 2 ^ 16 mod 256) (v / 2 ^ 8 mod 256)
          (v mod 256) /\
      isValidIPv4 (toIPv4 (Int v)) = true) /\
  toIPv4 (Int 0) = "0.0.0.0"%string /\
  toIPv4 (Int 0xFFFFFFFF) = "255.255.255.255"%string.
Proof.
  split; [|split; vm_compute; reflexivity].
  intros v Hv. split; [|apply toIPv4_accepted].
  rewrite toIPv4_bytes.
  destruct (byteAt_unsigned v Hv) as (-> & -> & -> & ->). reflexivity.
Qed.

Lemma toIPv4_total_witness :
  0 <= 3232235777 < 2 ^ 32 /\
  toIPv4 (Int 3232235777) = "192.168.1.1"%string /\
  isValidIPv4 (toIPv4 (Int 3232235777)) = true.
Proof.
  split; [lia|].
  destruct (proj1 toIPv4_total 3232235777 ltac:(lia)) as [_ H].
  split; [vm_compute; reflexivity|exact H].
Defined.

(** C9. Formatting IPv4 is idempotent through parsing: for every 32-bit
    unsigned [v] whose text the validity predicate accepts,
    [toIPv4 (fromIPv4 (toIPv4 v))] is [toIPv4 v]; the predicate of the
    specification accepts every such text. *)
Theorem toIPv4_idempotent isIPv4 v :
  0 <= v < 2 ^ 32 ->
  isIPv4 (toIPv4 (Int v)) = true ->
  (exists n,
      fromIPv4 isIPv4 (toIPv4 (Int v)) = Ok n /\
      toIPv4 n = toIPv4 (Int v)) /\
  isValidIPv4 (toIPv4 (Int v)) = true.
Proof.
  intros _ Hacc. split; [apply fromIPv4_toIPv4, Hacc|apply toIPv4_accepted].
Qed.

Lemma toIPv4_idempotent_witness :
  0 <= 0xFFFFFFFF < 2 ^ 32 /\
  isValidIPv4 (toIPv4 (Int 0xFFFFFFFF)) = true /\
  exists n,
    fromIPv4 isValidIPv4 (toIPv4 (Int 0xFFFFFFFF)) = Ok n /\
    toIPv4 n = toIPv4 (Int 0xFFFFFFFF).
Proof.
  split; [lia|]. split; [vm_compute; reflexivity|].
  apply (toIPv4_idempotent isValidIPv4 0xFFFFFFFF);
    [lia|vm_compute; reflexivity].
Defined.

(** ** IPv6 *)

(** C3. Round trip IPv6 at the level of values: for every accepted text [s]
    of the IPv6 grammar, [fromIPv6 s] is a value [v] below 2^128, and when
    the predicate accepts the text [toIPv6 v], parsing it gives [v] again;
    the predicate of the specification accepts [toIPv6 v]. *)
Theorem fromIPv6_toIPv6_fromIPv6 isIPv6 s :
  isIPv6 s = true ->
  ipv6_syntax (chars s) = true ->
  (forall v, fromIPv6 isIPv6 s = Ok v -> isIPv6 (toIPv6 v) = true) ->
  exists v,
    fromIPv6 isIPv6 s = Ok v /\ 0 <= v < 2 ^ 128 /\
    fromIPv6 isIPv6 (toIPv6 v) = Ok v /\
    isValidIPv6 (toIPv6 v) = true.
Proof.
  intros Hacc Hsyn Hout.
  destruct (fromIPv6_valid isIPv6 s Hacc Hsyn) as (v & Hv & Hrange).
  exists v. split; [exact Hv|]. split; [exact Hrange|].
  split; [|apply toIPv6_valid].
  apply fromIPv6_toIPv6; [exact Hrange|apply Hout, Hv].
Qed.

Lemma fromIPv6_toIPv6_fromIPv6_witness :
  isValidIPv6 "2001:0db8:0000:0000:0000:0000:0000:0001" = true /\
  exists v,
    fromIPv6 isValidIPv6 "2001:0db8:0000:0000:0000:0000:0000:0001" = Ok v /\
    0 <= v < 2 ^ 128 /\
    fromIPv6 isValidIPv6 (toIPv6 v) = Ok v /\
    isValidIPv6 (toIPv6 v) = true.
Proof.
  split; [vm_compute; reflexivity|].
  apply (fromIPv6_toIPv6_fromIPv6 isValidIPv6
           "2001:0db8:0000:0000:0000:0000:0000:0001").
  - vm_compute; reflexivity.
  - vm_compute; reflexivity.
  - intros v _. apply toIPv6_valid.
Defined.

(** C4. On an accepted text of the grammar that contains [::],
    [fromIPv6] replaces the empty section [split] leaves for the
    abbreviation by [8 - (n - 1)] sections ["0"], [n] being the number of
    sections of the split, so that exactly 8 sections result; their values
    are the hextets of the text with [8 - h] zeros in the place of the
    [::], [h] being the number of hextets, also when the [::] leads or
    ends the text.  In particular [fromIPv6 "::"] is 0 and
    [fromIPv6 "::1"] is 1. *)
Theorem fromIPv6_abbreviation :
  (forall isIPv6 s l r,
      isIPv6 s = true ->
      ipv6_syntax (chars s) = true ->
      split_abbrev (chars s) = Some (l, r) ->
      let sections := split ":" (chars s) in
      exists expanded,
        expandSections sections = Ok expanded /\
        expanded
        = splice (indexOf [] sections) 1
            (repeat (chars "0") (8 - (List.length sections - 1))) sections /\
        List.length expanded = 8%nat /\
        map section_value expanded
        = map section_value (side l)
            ++ repeat 0 (8 - (List.length (side l) + List.length (side r)))
            ++ map section_value (side r) /\
        fromIPv6 isIPv6 s
        = Ok (segments_value (map section_value expanded))) /\
  fromIPv6 isValidIPv6 "::" = Ok 0 /\
  fromIPv6 isValidIPv6 "::1" = Ok 1 /\
  fromIPv6 isValidIPv6 "1::" = Ok (2 ^ 112).
Proof.
  split; [|repeat split; vm_compute; reflexivity].
  intros isIPv6 s l r Hacc Hsyn Habb sections.
  destruct (abbreviation_sections _ l r Hsyn Habb)
    as (Hl & Hr & Hlen & Hsplit).
  destruct (expand_abbreviated (side l) (side r) Hl Hr Hlen)
    as (E & HE & HlenE & HallE & Hvals).
  exists E. subst sections. rewrite Hsplit.
  split; [exact HE|]. split.
  - rewrite expandSections_splice in HE.
    + inversion HE. reflexivity.
    + apply in_or_app. right. left. reflexivity.
    + rewrite length_app. cbn [List.length].
      pose proof (or_blank_length (side l)).
      pose proof (or_blank_length (side r)).
      destruct (side l), (side r); cbn [or_blank List.length] in *; lia.
  - split; [exact HlenE|]. split; [exact Hvals|].
    unfold fromIPv6. rewrite Hacc. cbn [negb]. rewrite Hsplit, HE.
    cbn [bind]. apply reduce_from_sections, HallE.
Qed.

Lemma fromIPv6_abbreviation_witness :
  isValidIPv6 "::ffff:1" = true /\
  split_abbrev (chars "::ffff:1") = Some ([], chars "ffff:1") /\
  exists expanded,
    expandSections (split ":" (chars "::ffff:1")) = Ok expanded /\
    expanded
    = splice (indexOf [] (split ":" (chars "::ffff:1"))) 1
        (repeat (chars "0")
           (8 - (List.length (split ":" (chars "::ffff:1")) - 1)))
        (split ":" (chars "::ffff:1")) /\
    List.length expanded = 8%nat /\
    map section_value expanded
    = map section_value (side [])
        ++ repeat 0
             (8 - (List.length (side [])
                   + List.length (side (chars "ffff:1"))))
        ++ map section_value (side (chars "ffff:1")) /\
    fromIPv6 isValidIPv6 "::ffff:1"
    = Ok (segments_value (map section_value expanded)).
Proof.
  split; [vm_compute; reflexivity|]. split; [vm_compute; reflexivity|].
  apply (proj1 fromIPv6_abbreviation isValidIPv6 "::ffff:1"%string []
           (chars "ffff:1")); vm_compute; reflexivity.
Defined.

(** C5. [toIPv6] collapses the first run of zero segments, whatever its
    length and whatever follows: when the segments of [v] are nonzero
    segments [pre], then one or more zeros, then [post] that is empty or
    begins with a nonzero segment, the text is [pre], [::], [post], every
    later zero of [post] printed as [0].  For the segments
    1:0:2:0:0:0:3:4 the single zero is collapsed and the run of three
    zeros after it is kept. *)
Theorem toIPv6_first_zero_run :
  (forall v pre k post,
      segments v = pre ++ repeat 0 (S k) ++ post ->
      Forall (fun x => x <> 0) pre ->
      match post with [] => True | y :: _ => y <> 0 end ->
      toIPv6 v
      = abbreviated (map (toString 16) pre) (map (toString 16) post)) /\
  segments 0x00010000000200000000000000030004 = [1; 0; 2; 0; 0; 0; 3; 4] /\
  toIPv6 0x00010000000200000000000000030004 = "1::2:0:0:0:3:4"%string.
Proof.
  split; [|split; vm_compute; reflexivity].
  intros v pre k post. apply toIPv6_zero_run.
Qed.

Lemma toIPv6_first_zero_run_witness :
  segments 0x00010000000200000000000000030004
  = [1] ++ repeat 0 1 ++ [2; 0; 0; 0; 3; 4] /\
  toIPv6 0x00010000000200000000000000030004
  = abbreviated (map (toString 16) [1]) (map (toString 16) [2; 0; 0; 0; 3; 4]).
Proof.
  split; [vm_compute; reflexivity|].
  apply (proj1 toIPv6_first_zero_run
           0x00010000000200000000000000030004 [1] 0%nat [2; 0; 0; 0; 3; 4]).
  - vm_compute; reflexivity.
  - repeat constructor. lia.
  - cbv iota. lia.
Defined.

(** C10. Full-range IPv6 round trip: for every [v] in [0, 2^128 - 1] whose
    text [toIPv6 v] the validity predicate accepts, [fromIPv6 (toIPv6 v)]
    is [v]. *)
Theorem fromIPv6_toIPv6_full_range isIPv6 v :
  0 <= v <= 2 ^ 128 - 1 ->
  isIPv6 (toIPv6 v) = true ->
  fromIPv6 isIPv6 (toIPv6 v) = Ok v.
Proof.
  intros Hv Hacc. apply fromIPv6_toIPv6; [lia|exact Hacc].
Qed.

Lemma fromIPv6_toIPv6_full_range_witness :
  0 <= 0x00010000000200030004000500060007 <= 2 ^ 128 - 1 /\
  toIPv6 0x00010000000200030004000500060007 = "1::2:3:4:5:6:7"%string /\
  isValidIPv6 (toIPv6 0x00010000000200030004000500060007) = true /\
  fromIPv6 isValidIPv6 (toIPv6 0x00010000000200030004000500060007)
  = Ok 0x00010000000200030004000500060007.
Proof.
  split; [lia|]. split; [vm_compute; reflexivity|].
  split; [vm_compute; reflexivity|].
  apply (fromIPv6_toIPv6_full_range isValidIPv6
           0x00010000000200030004000500060007);
    [lia|vm_compute; reflexivity].
Defined.

(** ** Errors *)

Lemma fromIPv4_accepted isIPv4 s :
  isIPv4 s = true -> exists n, fromIPv4 isIPv4 s = Ok n.
Proof.
  intros Hacc. unfold fromIPv4. rewrite Hacc. cbn [negb].
  pose proof (split_nonempty "." (chars s)) as Hne.
  destruct (split "." (chars s)) as [|p ps]; [congruence|].
  cbn [map reduce]. eexists. reflexivity.
Qed.

(** A predicate that lets a zone identifier through makes [fromIPv6]
    raise a RangeError: [parseInt] of the last section is [NaN]. *)
Lemma fromIPv6_zone_identifier :
  fromIPv6 (fun _ => true) "fe80::%eth0" = Throw RangeError.
Proof. vm_compute. reflexivity. Qed.

(** C6, as the claim states it, fails: the error raised for a rejected
    input has a fixed message that does not contain the input. *)
Lemma invalid_address_omits_input :
  isValidIPv4 "999.1.1.1" = false /\
  fromIPv4 isValidIPv4 "999.1.1.1"
  = Throw (Error "str should be a valid IPv4 address.") /\
  mentions (Error "str should be a valid IPv4 address.") "999.1.1.1" = false /\
  fromIPv4 isValidIPv4 "not-an-ip" = fromIPv4 isValidIPv4 "999.1.1.1".
Proof. repeat split; vm_compute; reflexivity. Qed.

(** C6, amended. [fromIPv4] and [fromIPv6] raise one kind of error, an
    [Error] whose fixed message names the family (and not the input),
    exactly when the validity predicate rejects the input; they return a
    value whenever it accepts, [fromIPv6] for a predicate that accepts [s]
    only if it is a text of the IPv6 grammar; a call either returns or
    throws, nothing else; [toIPv4] and [toIPv6] are total. *)
Theorem parse_throws_iff_rejected isIPv4 isIPv6 s :
  (isIPv6 s = true -> ipv6_syntax (chars s) = true) ->
  (isIPv4 s = false ->
   fromIPv4 isIPv4 s = Throw (Error "str should be a valid IPv4 address.")) /\
  (isIPv4 s = true -> exists n, fromIPv4 isIPv4 s = Ok n) /\
  (isIPv6 s = false ->
   fromIPv6 isIPv6 s = Throw (Error "str should be a valid IPv6 address.")) /\
  (isIPv6 s = true -> exists v, fromIPv6 isIPv6 s = Ok v) /\
  mentions (Error "str should be a valid IPv4 address.") "IPv4" = true /\
  mentions (Error "str should be a valid IPv6 address.") "IPv6" = true /\
  (forall n, exists t, toIPv4 n = t) /\
  (forall v, exists t, toIPv6 v = t).
Proof.
  intros Hsyn.
  split; [intros H; unfold fromIPv4; rewrite H; reflexivity|].
  split; [apply fromIPv4_accepted|].
  split; [intros H; unfold fromIPv6; rewrite H; reflexivity|].
  split.
  { intros H. destruct (fromIPv6_valid isIPv6 s H (Hsyn H)) as (v & Hv & _).
    exists v. exact Hv. }
  split; [vm_compute; reflexivity|]. split; [vm_compute; reflexivity|].
  split; intros x; eexists; reflexivity.
Qed.

Lemma parse_throws_iff_rejected_witness :
  (isValidIPv6 "::1" = true -> ipv6_syntax (chars "::1") = true) /\
  isValidIPv4 "::1" = false /\
  fromIPv4 isValidIPv4 "::1"
  = Throw (Error "str should be a valid IPv4 address.") /\
  isValidIPv6 "::1" = true /\
  exists v, fromIPv6 isValidIPv6 "::1" = Ok v.
Proof.
  pose proof (parse_throws_iff_rejected isValidIPv4 isValidIPv6 "::1"
                (fun H => H)) as (H4 & _ & _ & H6 & _).
  split; [exact (fun H => H)|]. split; [vm_compute; reflexivity|].
  split; [apply H4; vm_compute; reflexivity|].
  split; [vm_compute; reflexivity|].
  apply H6. vm_compute. reflexivity.
Defined.


(** * Further properties of the four functions *)

(** ** IPv4 *)

Lemma wrap32_add_multiple v k : wrap32 (v + k * 2 ^ 32) = wrap32 v.
Proof.
  unfold wrap32.
  replace (v + k * 2 ^ 32 + 2 ^ 31) with (v + 2 ^ 31 + k * 2 ^ 32) by lia.
  rewrite Z.mod_add by lia. reflexivity.
Qed.

Lemma wrap32_of_mod v : wrap32 (v mod 2 ^ 32) = wrap32 v.
Proof.
  rewrite (Z.div_mod v (2 ^ 32)) at 2 by lia.
  rewrite Z.add_comm, Z.mul_comm. symmetry. apply wrap32_add_multiple.
Qed.

Lemma pack32_bytes v :
  pack32 (byteAt 24 v) (byteAt 16 v) (byteAt 8 v) (byteAt 0 v) = wrap32 v.
Proof.
  unfold pack32, byteAt.
  change 255 with (Z.ones 8). rewrite !Z.land_ones by lia.
  rewrite !Z.shiftr_div_pow2 by lia.
  pose proof (wrap32_range v) as Hr. set (w := wrap32 v) in *.
  transitivity (wrap32 (w + (- (w / 2 ^ 32)) * 2 ^ 32)).
  - f_equal.
    change (2 ^ 31) with 2147483648 in *. change (2 ^ 32) with 4294967296.
    change (2 ^ 24) with 16777216. change (2 ^ 16) with 65536.
    change (2 ^ 8) with 256. change (2 ^ 0) with 1.
    Z.div_mod_to_equations. lia.
  - rewrite wrap32_add_multiple. apply wrap32_small. exact Hr.
Qed.

Lemma fromIPv4_toIPv4_value isIPv4 v :
  isIPv4 (toIPv4 (Int v)) = true ->
  fromIPv4 isIPv4 (toIPv4 (Int v)) = Ok (Int (wrap32 v)).
Proof.
  intros Hacc. rewrite toIPv4_bytes in *.
  rewrite fromIPv4_dotted; try apply byteAt_range; [|exact Hacc].
  rewrite pack32_bytes. reflexivity.
Qed.

(** X1. On an accepted dotted text of four octets [fromIPv4] returns the
    big-endian packing as a 32-bit signed integer: the packed value itself
    when the first octet is below 128, the packed value minus 2^32 (a
    negative number) when it is 128 or more. *)
Theorem fromIPv4_signed_packing isIPv4 a b c d :
  0 <= a <= 255 -> 0 <= b <= 255 -> 0 <= c <= 255 -> 0 <= d <= 255 ->
  isIPv4 (dotted a b c d) = true ->
  fromIPv4 isIPv4 (dotted a b c d)
  = Ok (Int (if a <? 128
             then a * 2 ^ 24 + b * 2 ^ 16 + c * 2 ^ 8 + d
             else a * 2 ^ 24 + b * 2 ^ 16 + c * 2 ^ 8 + d - 2 ^ 32)).
Proof.
  intros Ha Hb Hc Hd Hacc.
  rewrite (fromIPv4_dotted isIPv4 a b c d Ha Hb Hc Hd Hacc).
  destruct (pack32_sign a b c d Ha Hb Hc Hd) as [Hlow Hhigh].
  destruct (Z.ltb_spec a 128) as [H|H];
    [rewrite (Hlow H)|rewrite (Hhigh H)]; reflexivity.
Qed.

Lemma fromIPv4_signed_packing_witness :
  isValidIPv4 (dotted 224 0 0 251) = true /\
  fromIPv4 isValidIPv4 (dotted 224 0 0 251)
  = Ok (Int (if 224 <? 128
             then 224 * 2 ^ 24 + 0 * 2 ^ 16 + 0 * 2 ^ 8 + 251
             else 224 * 2 ^ 24 + 0 * 2 ^ 16 + 0 * 2 ^ 8 + 251 - 2 ^ 32)).
Proof.
  split; [vm_compute; reflexivity|].
  apply (fromIPv4_signed_packing isValidIPv4 224 0 0 251);
    try lia; vm_compute; reflexivity.
Defined.

(** X2. [toIPv4] reads only the low 32 bits of its argument: any integer,
    negative ones included, prints as its residue modulo 2^32, so the
    negative results of [fromIPv4] print as the address they came from. *)
Theorem toIPv4_low_32_bits v :
  toIPv4 (Int v) = toIPv4 (Int (v mod 2 ^ 32)) /\
  toIPv4 (Int (v - 2 ^ 32)) = toIPv4 (Int v).
Proof.
  rewrite !toIPv4_bytes. unfold byteAt.
  rewrite wrap32_of_mod.
  replace (v - 2 ^ 32) with (v + (-1) * 2 ^ 32) by lia.
  rewrite wrap32_add_multiple. split; reflexivity.
Qed.

(** X3. Formatting then parsing an unsigned 32-bit value gives the value
    back only below 2^31; from 2^31 on (first octet 128 or more) the
    result is the value minus 2^32. *)
Theorem fromIPv4_toIPv4_signed isIPv4 v :
  0 <= v < 2 ^ 32 ->
  isIPv4 (toIPv4 (Int v)) = true ->
  fromIPv4 isIPv4 (toIPv4 (Int v))
  = Ok (Int (if v <? 2 ^ 31 then v else v - 2 ^ 32)).
Proof.
  intros Hv Hacc. rewrite (fromIPv4_toIPv4_value isIPv4 v Hacc).
  do 2 f_equal. unfold wrap32.
  change (2 ^ 31) with 2147483648 in *. change (2 ^ 32) with 4294967296 in *.
  destruct (Z.ltb_spec v 2147483648); Z.div_mod_to_equations; lia.
Qed.

Lemma fromIPv4_toIPv4_signed_witness :
  0 <= 3232235777 < 2 ^ 32 /\
  isValidIPv4 (toIPv4 (Int 3232235777)) = true /\
  fromIPv4 isValidIPv4 (toIPv4 (Int 3232235777))
  = Ok (Int (if 3232235777 <? 2 ^ 31 then 3232235777
             else 3232235777 - 2 ^ 32)).
Proof.
  split; [lia|]. split; [vm_compute; reflexivity|].
  apply (fromIPv4_toIPv4_signed isValidIPv4 3232235777);
    [lia|vm_compute; reflexivity].
Defined.

(** X4. [toIPv4] is injective on the unsigned 32-bit values: two different
    values never print as the same text. *)
Theorem toIPv4_injective v w :
  0 <= v < 2 ^ 32 -> 0 <= w < 2 ^ 32 ->
  toIPv4 (Int v) = toIPv4 (Int w) -> v = w.
Proof.
  intros Hv Hw E.
  pose proof (fromIPv4_toIPv4_value (fun _ => true) v eq_refl) as Pv.
  pose proof (fromIPv4_toIPv4_value (fun _ => true) w eq_refl) as Pw.
  rewrite E, Pw in Pv. inversion Pv as [Ew].
  assert (Em : v mod 2 ^ 32 = w mod 2 ^ 32).
  { rewrite <- (wrap32_mod v), <- (wrap32_mod w), Ew. reflexivity. }
  rewrite !Z.mod_small in Em by lia. exact Em.
Qed.

Lemma toIPv4_injective_witness :
  0 <= 16909060 < 2 ^ 32 /\ toIPv4 (Int 16909060) = toIPv4 (Int 0x01020304) /\
  16909060 = 0x01020304.
Proof.
  split; [lia|]. split; [reflexivity|].
  apply (toIPv4_injective 16909060 0x01020304); [lia|lia|reflexivity].
Defined.

(** X5. [fromIPv4] is injective on the accepted canonical texts: two
    different addresses never give the same number. *)
Theorem fromIPv4_injective isIPv4 s t :
  isIPv4 s = true -> isIPv4 t = true ->
  canonical_quad (chars s) = true -> canonical_quad (chars t) = true ->
  fromIPv4 isIPv4 s = fromIPv4 isIPv4 t -> s = t.
Proof.
  intros Hs Ht Cs Ct E.
  destruct (canonical_quad_dotted s Cs)
    as (a & b & c & d & (Ha & Hb & Hc & Hd) & ->).
  destruct (canonical_quad_dotted t Ct)
    as (a' & b' & c' & d' & (Ha' & Hb' & Hc' & Hd') & ->).
  rewrite (fromIPv4_dotted isIPv4 a b c d) in E by assumption.
  rewrite (fromIPv4_dotted isIPv4 a' b' c' d') in E by assumption.
  inversion E as [Ep].
  rewrite <- (toIPv4_pack32 a b c d), <- (toIPv4_pack32 a' b' c' d')
    by assumption.
  rewrite Ep. reflexivity.
Qed.

Lemma fromIPv4_injective_witness :
  isValidIPv4 "10.0.0.1" = true /\
  fromIPv4 isValidIPv4 "10.0.0.1" = fromIPv4 isValidIPv4 (dotted 10 0 0 1) /\
  "10.0.0.1"%string = dotted 10 0 0 1.
Proof.
  split; [vm_compute; reflexivity|]. split; [vm_compute; reflexivity|].
  apply (fromIPv4_injective isValidIPv4 "10.0.0.1" (dotted 10 0 0 1));
    vm_compute; reflexivity.
Defined.


(** ** IPv6 *)

Lemma segment_of_mod v i :
  0 <= i <= 7 ->
  Z.land (Z.shiftr (v mod 2 ^ 128) (i * 16)) 0xFFFF
  = Z.land (Z.shiftr v (i * 16)) 0xFFFF.
Proof.
  intros Hi. apply Z.bits_inj'. intros n Hn.
  rewrite !Z.land_spec, !Z.shiftr_spec by lia.
  change 0xFFFF with (Z.ones 16).
  destruct (Z.lt_ge_cases n 16) as [Hlt|Hge].
  - rewrite Z.mod_pow2_bits_low by lia. reflexivity.
  - rewrite Z.ones_spec_high by lia. rewrite !andb_false_r. reflexivity.
Qed.

Lemma segments_of_mod v : segments (v mod 2 ^ 128) = segments v.
Proof.
  unfold segments. cbn [map].
  rewrite !segment_of_mod by lia. reflexivity.
Qed.

Lemma toIPv6_of_mod v : toIPv6 (v mod 2 ^ 128) = toIPv6 v.
Proof.
  unfold toIPv6. rewrite !sectionsOf_segments, segments_of_mod. reflexivity.
Qed.

Lemma segments_of_value xs :
  List.length xs = 8%nat -> Forall (fun x => 0 <= x < 65536) xs ->
  segments (segments_value xs) = xs.
Proof.
  intros Hlen Hxs.
  destruct xs as [|x7 [|x6 [|x5 [|x4 [|x3 [|x2 [|x1 [|x0 [|? ?]]]]]]]]];
    try discriminate Hlen.
  repeat match goal with
         | H : Forall _ (_ :: _) |- _ => inversion H; clear H; subst
         end.
  unfold segments, segments_value. cbn [map fold_left].
  change 0xFFFF with (Z.ones 16). rewrite !Z.land_ones by lia.
  rewrite !Z.shiftl_mul_pow2 by lia. rewrite !Z.shiftr_div_pow2 by lia.
  change (2 ^ 16) with 65536.
  change (2 ^ (7 * 16)) with 5192296858534827628530496329220096.
  change (2 ^ (6 * 16)) with 79228162514264337593543950336.
  change (2 ^ (5 * 16)) with 1208925819614629174706176.
  change (2 ^ (4 * 16)) with 18446744073709551616.
  change (2 ^ (3 * 16)) with 281474976710656.
  change (2 ^ (2 * 16)) with 4294967296.
  change (2 ^ (1 * 16)) with 65536.
  change (2 ^ (0 * 16)) with 1.
  repeat f_equal; Z.div_mod_to_equations; lia.
Qed.


(** X6. [toIPv6] reads only the low 128 bits of its argument, negative
    integers included, and parsing its text gives the argument modulo
    2^128. *)
Theorem toIPv6_low_128_bits isIPv6 v :
  isIPv6 (toIPv6 v) = true ->
  toIPv6 v = toIPv6 (v mod 2 ^ 128) /\
  fromIPv6 isIPv6 (toIPv6 v) = Ok (v mod 2 ^ 128).
Proof.
  intros Hacc. split; [symmetry; apply toIPv6_of_mod|].
  rewrite <- toIPv6_of_mod in *.
  apply fromIPv6_toIPv6; [|exact Hacc].
  apply Z.mod_pos_bound. lia.
Qed.

Lemma toIPv6_low_128_bits_witness :
  isValidIPv6 (toIPv6 (-1)) = true /\
  toIPv6 (-1) = toIPv6 ((-1) mod 2 ^ 128) /\
  fromIPv6 isValidIPv6 (toIPv6 (-1)) = Ok ((-1) mod 2 ^ 128).
Proof.
  split; [vm_compute; reflexivity|].
  apply (toIPv6_low_128_bits isValidIPv6 (-1)). vm_compute. reflexivity.
Defined.

(** X7. [toIPv6] is injective on [0, 2^128 - 1]: although it collapses the
    first zero run only, two different values never print as the same
    text. *)
Theorem toIPv6_injective v w :
  0 <= v < 2 ^ 128 -> 0 <= w < 2 ^ 128 -> toIPv6 v = toIPv6 w -> v = w.
Proof.
  intros Hv Hw E.
  pose proof (fromIPv6_toIPv6 (fun _ => true) v Hv eq_refl) as Pv.
  pose proof (fromIPv6_toIPv6 (fun _ => true) w Hw eq_refl) as Pw.
  rewrite E, Pw in Pv. inversion Pv. reflexivity.
Qed.

Lemma toIPv6_injective_witness :
  0 <= 1 < 2 ^ 128 /\ toIPv6 1 = toIPv6 (0 + 1) /\ 1 = 0 + 1.
Proof.
  split; [lia|]. split; [reflexivity|].
  apply (toIPv6_injective 1 (0 + 1)); [lia|lia|reflexivity].
Defined.

(** X8. Every text [toIPv6] produces, for any integer, is in the IPv6
    grammar: eight hextets of one to four hexadecimal digits, or fewer
    with exactly one [::]. *)
Theorem toIPv6_in_grammar v : ipv6_syntax (chars (toIPv6 v)) = true.
Proof. apply (toIPv6_valid v). Qed.

(** X9. The text of [toIPv6] contains [::] exactly when one of the eight
    segments is zero: a single zero segment is abbreviated too, and a
    value without zero segment prints as eight hextets. *)
Theorem toIPv6_abbreviates_iff_zero v :
  split_abbrev (chars (toIPv6 v)) = None
  <-> Forall (fun x => x <> 0) (segments v).
Proof.
  pose proof (segments_range v) as Hr. split.
  - intros Hnone.
    destruct (first_zero_run (segments v))
      as [Hnz|(pre & k & post & Hseg & Hpre & Hpost)]; [exact Hnz|].
    rewrite (toIPv6_zero_run v pre k post Hseg Hpre Hpost) in Hnone.
    rewrite Hseg in Hr. apply Forall_app in Hr as [Hrpre _].
    unfold abbreviated in Hnone. rewrite chars_text in Hnone.
    rewrite split_abbrev_colons in Hnone
      by apply hextets_pieces, hexes_hextets, Hrpre.
    rewrite split_abbrev_cons, !Ascii.eqb_refl in Hnone. discriminate Hnone.
  - intros Hnz. rewrite (toIPv6_no_zero v Hnz), chars_text.
    pose proof (split_abbrev_colons (map (toString 16) (segments v)) []
                  (hextets_pieces _ (hexes_hextets _ Hr))) as E.
    rewrite app_nil_r in E. exact E.
Qed.

(** X10. Segment order of [fromIPv6]: on an accepted text of eight
    hextets the result is below 2^128 and its eight 16-bit segments, most
    significant first, are the values of the hextets in textual order. *)
Theorem fromIPv6_big_endian isIPv6 hs :
  List.length hs = 8%nat ->
  Forall (fun p => hextet p = true) hs ->
  isIPv6 (text (colons hs)) = true ->
  exists v,
    fromIPv6 isIPv6 (text (colons hs)) = Ok v /\
    0 <= v < 2 ^ 128 /\
    segments v = map section_value hs.
Proof.
  intros Hlen Hhs Hacc. eexists. split.
  - apply fromIPv6_full; [|exact Hhs|exact Hacc].
    intros ->. discriminate Hlen.
  - split.
    + apply segments_value_bound; [apply hextets_values, Hhs|].
      rewrite length_map. lia.
    + apply segments_of_value; [rewrite length_map; exact Hlen|].
      apply hextets_values, Hhs.
Qed.

Lemma fromIPv6_big_endian_witness :
  isValidIPv6 (text (colons (map chars
     ["2001"; "0DB8"; "85a3"; "0"; "0"; "8a2e"; "370"; "7334"]%string)))
  = true /\
  exists v,
    fromIPv6 isValidIPv6 (text (colons (map chars
      ["2001"; "0DB8"; "85a3"; "0"; "0"; "8a2e"; "370"; "7334"]%string)))
    = Ok v /\
    0 <= v < 2 ^ 128 /\
    segments v
    = map section_value (map chars
        ["2001"; "0DB8"; "85a3"; "0"; "0"; "8a2e"; "370"; "7334"]%string).
Proof.
  split; [vm_compute; reflexivity|].
  apply (fromIPv6_big_endian isValidIPv6 (map chars
     ["2001"; "0DB8"; "85a3"; "0"; "0"; "8a2e"; "370"; "7334"]%string)).
  - reflexivity.
  - repeat constructor.
  - vm_compute. reflexivity.
Defined.

(** X11. Full expansion: an accepted abbreviated text parses to the same
    value as the accepted text in which the [::] is written out as the
    missing [0] hextets. *)
Theorem fromIPv6_expansion isIPv6 pre post :
  Forall (fun p => hextet p = true) pre ->
  Forall (fun p => hextet p = true) post ->
  (List.length pre + List.length post <= 7)%nat ->
  isIPv6 (abbreviated pre post) = true ->
  isIPv6 (text (colons
     (pre ++ repeat (chars "0") (8 - (List.length pre + List.length post))
          ++ post))) = true ->
  fromIPv6 isIPv6 (abbreviated pre post)
  = fromIPv6 isIPv6 (text (colons
      (pre ++ repeat (chars "0") (8 - (List.length pre + List.length post))
           ++ post))).
Proof.
  intros Hpre Hpost Hlen Habb Hfull.
  rewrite (fromIPv6_abbreviated isIPv6 pre post Hpre Hpost Hlen Habb).
  rewrite fromIPv6_full; [| | |exact Hfull].
  - rewrite !map_app, section_value_zeros. reflexivity.
  - intros E. apply (f_equal (@List.length _)) in E.
    rewrite !length_app, repeat_length in E. cbn [List.length] in E. lia.
  - apply Forall_app. split; [exact Hpre|].
    apply Forall_app. split; [|exact Hpost].
    apply Forall_forall. intros p Hp. apply repeat_spec in Hp. subst.
    reflexivity.
Qed.

Lemma fromIPv6_expansion_witness :
  abbreviated (map chars ["2001"; "db8"]%string) (map chars ["1"]%string)
  = "2001:db8::1"%string /\
  text (colons
     (map chars ["2001"; "db8"]%string
        ++ repeat (chars "0") (8 - (2 + 1)) ++ map chars ["1"]%string))
  = "2001:db8:0:0:0:0:0:1"%string /\
  fromIPv6 isValidIPv6
    (abbreviated (map chars ["2001"; "db8"]%string) (map chars ["1"]%string))
  = fromIPv6 isValidIPv6 (text (colons
      (map chars ["2001"; "db8"]%string
         ++ repeat (chars "0")
              (8 - (List.length (map chars ["2001"; "db8"]%string)
                    + List.length (map chars ["1"]%string)))
         ++ map chars ["1"]%string))).
Proof.
  split; [reflexivity|]. split; [reflexivity|].
  apply (fromIPv6_expansion isValidIPv6
           (map chars ["2001"; "db8"]%string) (map chars ["1"]%string)).
  - repeat constructor.
  - repeat constructor.
  - cbn [map List.length]. lia.
  - vm_compute. reflexivity.
  - vm_compute. reflexivity.
Defined.


(** ** [fromIPv6] on accepted texts outside the grammar *)

Lemma reduce_from_unparsable secs :
  Exists (fun p => parseInt (orZero p) 16 = NaN) secs ->
  forall acc, reduce_from addSection secs acc = Throw RangeError.
Proof.
  induction secs as [|p secs IH]; intros Hex acc.
  - inversion Hex.
  - cbn [reduce_from]. unfold addSection at 1.
    destruct (parseInt (orZero p) 16) as [|z] eqn:E; [reflexivity|].
    cbn [BigInt bind]. apply IH.
    inversion Hex as [? ? Hp|? ? Ht]; subst; [congruence|exact Ht].
Qed.

Lemma first_empty (secs : list (list ascii)) :
  Forall (fun p => p <> []) secs \/
  exists A B, secs = A ++ [] :: B /\ Forall (fun p => p <> []) A.
Proof.
  induction secs as [|p secs IH]; [left; constructor|].
  destruct p as [|c p].
  - right. exists [], secs. split; [reflexivity|constructor].
  - destruct IH as [Hall|(A & B & -> & HA)].
    + left. constructor; [discriminate|exact Hall].
    + right. exists ((c :: p) :: A), B. split; [reflexivity|].
      constructor; [discriminate|exact HA].
Qed.

Lemma expandSections_cases A B :
  Forall (fun p => p <> []) A ->
  expandSections (A ++ [] :: B) = Throw RangeError \/
  exists zeros, expandSections (A ++ [] :: B) = Ok (A ++ zeros ++ B).
Proof.
  intros HA. unfold expandSections. rewrite (indexOf_first A B HA).
  destruct (Z.eqb_spec (Z.of_nat (List.length A)) (-1)) as [E|_]; [lia|].
  cbn [negb]. unfold new_Array_fill.
  destruct ((8 - Z.of_nat (List.length (A ++ [] :: B)) + 1 <? 0)
            || (2 ^ 32 <=? 8 - Z.of_nat (List.length (A ++ [] :: B)) + 1));
    [left; reflexivity|].
  right. eexists. cbn [bind]. unfold splice.
  rewrite Nat2Z.id. change (Z.to_nat 1) with 1%nat.
  rewrite firstn_app, firstn_all, Nat.sub_diag. cbn [firstn].
  rewrite app_nil_r, skipn_app, skipn_all2 by lia.
  replace (List.length A + 1 - List.length A)%nat with 1%nat by lia.
  reflexivity.
Qed.

(** X12. When the validity predicate accepts a text with a nonempty
    section that [parseInt] cannot read (no leading hexadecimal digit, as
    in a section made of a zone identifier), [fromIPv6] returns no value:
    it throws a RangeError, not the error of an invalid address. *)
Theorem fromIPv6_unparsable_section isIPv6 s :
  isIPv6 s = true ->
  Exists (fun p => p <> [] /\ parseInt p 16 = NaN) (split ":" (chars s)) ->
  fromIPv6 isIPv6 s = Throw RangeError.
Proof.
  intros Hacc Hex. unfold fromIPv6. rewrite Hacc. cbn [negb].
  assert (Hbad : forall l,
             Exists (fun p => p <> [] /\ parseInt p 16 = NaN) l ->
             Exists (fun p => parseInt (orZero p) 16 = NaN) l).
  { intros l. apply Exists_impl. intros p [Hne Hp].
    destruct p; [congruence|exact Hp]. }
  destruct (first_empty (split ":" (chars s))) as [Hall|(A & B & E & HA)].
  - rewrite (expandSections_full _ Hall). cbn [bind].
    apply reduce_from_unparsable, Hbad, Hex.
  - rewrite E in *.
    destruct (expandSections_cases A B HA) as [->|(zeros & ->)];
      [reflexivity|].
    cbn [bind]. apply reduce_from_unparsable, Hbad.
    apply Exists_app in Hex as [Hex|Hex].
    + apply Exists_app. left. exact Hex.
    + apply Exists_app. right. apply Exists_app. right.
      inversion Hex as [? ? [Hne _]|? ? Ht]; subst; [congruence|exact Ht].
Qed.

Lemma fromIPv6_unparsable_section_witness :
  Exists (fun p => p <> [] /\ parseInt p 16 = NaN)
    (split ":" (chars "fe80::%eth0")) /\
  fromIPv6 (fun _ => true) "fe80::%eth0" = Throw RangeError.
Proof.
  assert (H : Exists (fun p => p <> [] /\ parseInt p 16 = NaN)
                (split ":" (chars "fe80::%eth0"))).
  { apply Exists_cons_tl, Exists_cons_tl, Exists_cons_hd.
    split; [discriminate|reflexivity]. }
  split; [exact H|].
  apply (fromIPv6_unparsable_section (fun _ => true) "fe80::%eth0" eq_refl H).
Defined.

(** ** Characters after the last hextet *)

Lemma split_app_last sep junk :
  ~ In sep junk ->
  forall t A p,
    split sep t = A ++ [p] -> split sep (t ++ junk) = A ++ [p ++ junk].
Proof.
  intros Hj. induction t as [|c t IH]; intros A p E.
  - cbn [split] in E. destruct A as [|a [|a' A]]; try discriminate E.
    inversion E; subst. cbn [app]. apply split_piece. exact Hj.
  - cbn [split app] in *. pose proof (split_nonempty sep t) as Hne.
    destruct (Ascii.eqb c sep).
    + destruct A as [|a A].
      * inversion E as [[Ep Et]]. congruence.
      * inversion E as [[Ea Et]]. rewrite (IH A p Et). reflexivity.
    + destruct (split sep t) as [|h tl] eqn:Es; [congruence|].
      destruct A as [|a A].
      * inversion E as [[Ep Et]]. subst.
        rewrite (IH [] h eq_refl). reflexivity.
      * inversion E as [[Ea Et]]. subst.
        rewrite (IH (h :: A) p eq_refl). reflexivity.
Qed.

Lemma digits_prefix_stop radix p c rest :
  forallb (is_digit radix) p = true -> is_digit radix c = false ->
  digits_prefix radix (p ++ c :: rest) = p.
Proof.
  intros Hp Hc. induction p as [|d p IH].
  - cbn [app digits_prefix]. rewrite Hc. reflexivity.
  - cbn [forallb] in Hp. apply andb_true_iff in Hp as [Hd Hp].
    cbn [app digits_prefix]. rewrite Hd, (IH Hp). reflexivity.
Qed.

Lemma parseInt_hex_prefix p c rest :
  p <> [] -> forallb (is_digit 16) p = true ->
  is_digit 16 c = false -> c <> "x"%char -> c <> "X"%char ->
  parseInt (p ++ c :: rest) 16 = Int (digits_value 16 p).
Proof.
  intros Hne Hp Hc Hx HX. destruct p as [|c1 r]; [congruence|].
  pose proof Hp as Hall. cbn [forallb] in Hp.
  apply andb_true_iff in Hp as [Hc1 Hr].
  unfold parseInt. cbn [app skip_ws]. rewrite (hex_not_ws c1 Hc1).
  unfold strip_sign.
  destruct (Ascii.eqb_spec c1 "-") as [->|_]; [discriminate Hc1|].
  destruct (Ascii.eqb_spec c1 "+") as [->|_]; [discriminate Hc1|].
  change ((16 <? 2) || (36 <? 16)) with false. change (16 =? 16) with true.
  cbv iota beta.
  assert (E0x : strip_0x (c1 :: r ++ c :: rest) = c1 :: r ++ c :: rest).
  { unfold strip_0x. destruct r as [|d r'].
    - cbn [app].
      destruct (Ascii.eqb_spec c "x") as [->|_]; [congruence|].
      destruct (Ascii.eqb_spec c "X") as [->|_]; [congruence|].
      rewrite andb_false_r. reflexivity.
    - cbn [app]. cbn [forallb] in Hr. apply andb_true_iff in Hr as [Hd _].
      destruct (Ascii.eqb_spec d "x") as [->|_]; [discriminate Hd|].
      destruct (Ascii.eqb_spec d "X") as [->|_]; [discriminate Hd|].
      rewrite andb_false_r. reflexivity. }
  rewrite E0x.
  change (c1 :: r ++ c :: rest) with ((c1 :: r) ++ c :: rest).
  rewrite (digits_prefix_stop 16 _ c rest Hall Hc). reflexivity.
Qed.

Lemma addSection_hex_prefix acc p c rest :
  p <> [] -> forallb (is_digit 16) p = true ->
  is_digit 16 c = false -> c <> "x"%char -> c <> "X"%char ->
  addSection acc (p ++ c :: rest) = addSection acc p.
Proof.
  intros Hne Hp Hc Hx HX. unfold addSection.
  assert (orZero (p ++ c :: rest) = p ++ c :: rest) as ->
    by (destruct p; [congruence|reflexivity]).
  assert (orZero p = p) as -> by (destruct p; [congruence|reflexivity]).
  rewrite (parseInt_hex_prefix p c rest Hne Hp Hc Hx HX).
  rewrite (parseInt_hex p Hne Hp). reflexivity.
Qed.

Lemma reduce_from_last {A B : Type} (f : B -> A -> result B) xs x :
  forall acc,
    reduce_from f (xs ++ [x]) acc
    = bind (reduce_from f xs acc) (fun a => f a x).
Proof.
  induction xs as [|y xs IH]; intros acc.
  - cbn [app reduce_from bind]. destruct (f acc x); reflexivity.
  - cbn [app reduce_from]. destruct (f acc y) as [a|e]; cbn [bind];
      [apply IH|reflexivity].
Qed.

Lemma expandSections_last A q q' :
  q <> [] -> q' <> [] ->
  (expandSections (A ++ [q]) = Throw RangeError /\
   expandSections (A ++ [q']) = Throw RangeError) \/
  exists E,
    expandSections (A ++ [q]) = Ok (E ++ [q]) /\
    expandSections (A ++ [q']) = Ok (E ++ [q']).
Proof.
  intros Hq Hq'.
  destruct (first_empty A) as [Hall|(A1 & B1 & -> & HA1)].
  - right. exists A.
    split; apply expandSections_full; (apply Forall_app; split;
      [exact Hall|constructor; [assumption|constructor]]).
  - rewrite <- !app_assoc. cbn [app].
    unfold expandSections. rewrite !(indexOf_first A1 _ HA1).
    destruct (Z.eqb_spec (Z.of_nat (List.length A1)) (-1)) as [E|_]; [lia|].
    cbn [negb]. unfold new_Array_fill.
    rewrite !length_app. cbn [List.length]. rewrite !length_app.
    cbn [List.length].
    set (n := 8 - Z.of_nat (List.length A1 + S (List.length B1 + 1)) + 1).
    destruct ((n <? 0) || (2 ^ 32 <=? n)); [left; split; reflexivity|].
    right. exists (A1 ++ repeat (chars "0") (Z.to_nat n) ++ B1).
    cbn [bind]. unfold splice.
    rewrite Nat2Z.id. change (Z.to_nat 1) with 1%nat.
    rewrite !firstn_app, !firstn_all, Nat.sub_diag. cbn [firstn].
    rewrite !app_nil_r, !skipn_app, !skipn_all2 by lia.
    replace (List.length A1 + 1 - List.length A1)%nat with 1%nat by lia.
    cbn [skipn app]. rewrite <- !app_assoc. split; reflexivity.
Qed.

(** X13. Characters after the last hextet are ignored: when the text [t]
    ends with a section of hexadecimal digits and the predicate accepts
    both [t] and [t] followed by characters that begin with neither a
    hexadecimal digit nor [x] or [X] and contain no colon (a zone
    identifier such as [%eth0], the dotted tail of an embedded IPv4
    address), [fromIPv6] gives both the same result. *)
Theorem fromIPv6_ignores_suffix isIPv6 t c rest A p :
  split ":" (chars t) = A ++ [p] ->
  p <> [] -> forallb (is_digit 16) p = true ->
  is_digit 16 c = false -> c <> "x"%char -> c <> "X"%char ->
  ~ In ":"%char (c :: rest) ->
  isIPv6 t = true -> isIPv6 (text (chars t ++ c :: rest)) = true ->
  fromIPv6 isIPv6 (text (chars t ++ c :: rest)) = fromIPv6 isIPv6 t.
Proof.
  intros Hsplit Hne Hp Hc Hx HX Hj Hacc Hacc'.
  unfold fromIPv6. rewrite Hacc, Hacc'. cbn [negb].
  rewrite chars_text, (split_app_last ":" (c :: rest) Hj _ A p Hsplit), Hsplit.
  assert (Hne' : p ++ c :: rest <> []) by (destruct p; discriminate).
  destruct (expandSections_last A (p ++ c :: rest) p Hne' Hne)
    as [[-> ->]|(E & -> & ->)]; [reflexivity|].
  cbn [bind]. rewrite !reduce_from_last.
  destruct (reduce_from addSection E 0) as [a|e]; [|reflexivity].
  cbn [bind]. apply addSection_hex_prefix; assumption.
Qed.

Lemma fromIPv6_ignores_suffix_witness :
  split ":" (chars "fe80::1") = map chars ["fe80"; ""]%string ++ [chars "1"] /\
  text (chars "fe80::1" ++ "%"%char :: chars "eth0") = "fe80::1%eth0"%string /\
  fromIPv6 (fun _ => true) (text (chars "fe80::1" ++ "%"%char :: chars "eth0"))
  = fromIPv6 (fun _ => true) "fe80::1".
Proof.
  split; [reflexivity|]. split; [reflexivity|].
  apply (fromIPv6_ignores_suffix (fun _ => true) "fe80::1"%string "%"%char
           (chars "eth0") (map chars ["fe80"; ""]%string) (chars "1"));
    try reflexivity; try discriminate.
  cbn. intros H. repeat (destruct H as [H|H]; [discriminate H|]). exact H.
Defined.


(** X14. The second replacement of [toIPv6], the one of three colons or
    more by [::], never changes anything: the text the first replacement
    leaves has no run of three colons, so [toIPv6 v] is that text. *)
Theorem toIPv6_second_replace_idle v :
  replace_colons (replace_zero_run (join ":" (sectionsOf v)))
  = replace_zero_run (join ":" (sectionsOf v)) /\
  toIPv6 v = text (replace_zero_run (join ":" (sectionsOf v))).
Proof.
  pose proof (segments_range v) as Hr.
  assert (Hsame : replace_colons (replace_zero_run (join ":" (sectionsOf v)))
                  = replace_zero_run (join ":" (sectionsOf v))).
  { rewrite sectionsOf_segments.
    fold (colons (map (toString 16) (segments v))).
    destruct (first_zero_run (segments v))
      as [Hnz|(pre & k & post & Hseg & Hpre & Hpost)].
    - rewrite replace_zero_run_none by (apply hexes_nonzero; assumption).
      apply replace_colons_colons, hextets_pieces, hexes_hextets, Hr.
    - rewrite Hseg in *.
      apply Forall_app in Hr as [Hrpre Hr].
      apply Forall_app in Hr as [_ Hrpost].
      rewrite !map_app, hexes_zeros.
      rewrite replace_zero_run_first;
        [|apply hexes_nonzero; assumption
         |apply hexes_starts_nonzero; assumption].
      apply replace_colons_abbreviated; apply hextets_pieces, hexes_hextets;
        assumption. }
  split; [exact Hsame|]. unfold toIPv6. rewrite Hsame. reflexivity.
Qed.
